(** * Curiosity engine: bounded exploration, novelty scoring, dissonance scan

    A shallow embedding of [engine/curiosity_engine.py], together with the
    parts of [engine/models.py] and [engine/retrieval.py] it calls, and the
    properties of the engine that the specification states.

    Conventions of the embedding.
    - Python [str] is [string]; a character is a code point below 256.
    - Python [float] is [Q] with exact arithmetic; [math.exp] is a function
      on [Q] taken as a section variable.
    - Python [int] is [Z].
    - The outside world (wall clock, environment variables, HTTP endpoints)
      is a record of oracles indexed by the number of earlier calls; the
      code runs in a state-and-exception monad that counts and logs them. *)

From Stdlib Require Import ZArith QArith Qminmax Qround Qabs.
From Stdlib Require Import List String Ascii Bool Arith Lia.
From Stdlib Require Import Permutation Sorted DecimalString.
Import ListNotations.

Local Open Scope string_scope.
Local Open Scope Z_scope.

(** ** Python string primitives *)

Module PyStr.

Definition code (c : ascii) : N := N_of_ascii c.

(** [str.isdigit] on one character: ASCII digits and the superscript
    digits of Latin-1. *)
Definition isdigit (c : ascii) : bool :=
  let n := code c in
  (((48 <=? n) && (n <=? 57)) || (n =? 178) || (n =? 179) || (n =? 185))%N.

(** [str.isspace] on one character. *)
Definition isspace (c : ascii) : bool :=
  let n := code c in
  (((9 <=? n) && (n <=? 13)) || ((28 <=? n) && (n <=? 32))
   || (n =? 133) || (n =? 160))%N.

(** The line boundaries of [str.splitlines]. *)
Definition is_linebreak (c : ascii) : bool :=
  let n := code c in
  (((10 <=? n) && (n <=? 13)) || ((28 <=? n) && (n <=? 30)) || (n =? 133))%N.

Definition is_cr (c : ascii) : bool := (code c =? 13)%N.
Definition is_lf (c : ascii) : bool := (code c =? 10)%N.

Definition nl : string := String (ascii_of_nat 10) EmptyString.

(** [s.splitlines()]: [cur] is the line being read.  A carriage return
    followed by a line feed is one boundary; no empty last line. *)
Fixpoint splitlines_from (cur s : string) : list string :=
  match s with
  | EmptyString => match cur with EmptyString => [] | _ => [cur] end
  | String c rest =>
      if is_linebreak c then
        cur :: match rest with
               | String c2 rest' =>
                   if is_cr c && is_lf c2 then splitlines_from "" rest'
                   else splitlines_from "" rest
               | EmptyString => splitlines_from "" rest
               end
      else splitlines_from (cur ++ String c "") rest
  end.

Definition splitlines (s : string) : list string := splitlines_from "" s.

Fixpoint lstrip (s : string) : string :=
  match s with
  | String c rest => if isspace c then lstrip rest else s
  | EmptyString => EmptyString
  end.

Definition rev (s : string) : string :=
  string_of_list_ascii (List.rev (list_ascii_of_string s)).

Definition rstrip (s : string) : string := rev (lstrip (rev s)).

(** [s.strip()] *)
Definition strip (s : string) : string := rstrip (lstrip s).

(** [s[:n]] *)
Fixpoint take (n : nat) (s : string) : string :=
  match n, s with
  | S n', String c rest => String c (take n' rest)
  | _, _ => EmptyString
  end.

(** [c in s] for a one-character [c] *)
Fixpoint contains (c : ascii) (s : string) : bool :=
  match s with
  | EmptyString => false
  | String d rest => Ascii.eqb c d || contains c rest
  end.

(** Position of the first [sep]: the text before it and the text after. *)
Fixpoint partition (sep : ascii) (s : string) : option (string * string) :=
  match s with
  | EmptyString => None
  | String c rest =>
      if Ascii.eqb sep c then Some (EmptyString, rest)
      else match partition sep rest with
           | Some (before, after) => Some (String c before, after)
           | None => None
           end
  end.

(** [s.split(sep, 1)] for a one-character [sep] *)
Definition split1 (sep : ascii) (s : string) : list string :=
  match partition sep s with
  | Some (before, after) => [before; after]
  | None => [s]
  end.

(** [str(n)] for an [int] *)
Definition of_int (n : Z) : string := NilZero.string_of_int (Z.to_int n).

End PyStr.

(** ** Effects: exceptions, the outside world, the run-time state *)

(** Exceptions that reach the engine: the [IndexError] of an index out of
    range, and the faults of the collaborators (transport errors, HTTP status
    errors, malformed response bodies), named by a description. *)
Inductive exn : Type :=
| IndexError
| Fault (detail : string).

Inductive Result (A : Type) : Type :=
| Ok (a : A)
| Raise (e : exn).
Arguments Ok {A} a.
Arguments Raise {A} e.

Definition is_ok {A} (r : Result A) : bool :=
  match r with Ok _ => true | Raise _ => false end.

(** What an HTTP endpoint answers.  [content] is the outcome of decoding the
    body as JSON and projecting the provider's text field out of it
    ([data["choices"][0]["message"]["content"]] for OpenAI,
    [data["content"][0]["text"]] for Anthropic, [data.get("response", "")] for
    Ollama): a fault when the body does not have that shape.  [status_fault]
    is what [raise_for_status()] raises, if anything. *)
Record response : Type := mkResponse {
  status_code : Z;
  text : string;
  status_fault : option exn;
  content : Result string
}.

(** The outside world.  [clock k] is what the [k]-th call of [time.time()]
    returns; [http_post k url prompt] is what the [k]-th POST returns or
    raises. *)
Record World : Type := mkWorld {
  clock : nat -> Q;
  getenv : string -> option string;
  http_post : nat -> string -> string -> Result response
}.

(** The run-time state: how often the clock was read, the calls made to the
    completion router with their outcomes, the number of POSTs, and the calls
    made to the contradiction model. *)
Record State : Type := mkState {
  clock_reads : nat;
  llm_log : list (string * Result string);
  http_posts : nat;
  nli_log : list (string * string)
}.

Definition init_state : State := mkState 0 [] 0 [].

Definition M (A : Type) : Type := State -> Result A * State.

Definition ret {A} (a : A) : M A := fun st => (Ok a, st).
Definition raise {A} (e : exn) : M A := fun st => (Raise e, st).
Definition bind {A B} (m : M A) (f : A -> M B) : M B :=
  fun st => match m st with
            | (Ok a, st') => f a st'
            | (Raise e, st') => (Raise e, st')
            end.
Definition lift {A} (r : Result A) : M A := fun st => (r, st).

Declare Scope monad_scope.
Delimit Scope monad_scope with monad.
Notation "x <- m ;; k" := (bind m (fun x => k))
  (at level 61, m at next level, right associativity) : monad_scope.
Local Open Scope monad_scope.

(** [for x in l: acc = body x acc] *)
Fixpoint for_each {A S} (l : list A) (body : A -> S -> M S) (acc : S) : M S :=
  match l with
  | [] => ret acc
  | x :: rest => acc' <- body x acc ;; for_each rest body acc'
  end.

(** [time.time()] *)
Definition time_time (w : World) : M Q :=
  fun st => (Ok (clock w (clock_reads st)),
             mkState (S (clock_reads st)) (llm_log st) (http_posts st) (nli_log st)).

(** One POST through [httpx.AsyncClient.post]. *)
Definition client_post (w : World) (url prompt : string) : M response :=
  fun st => (http_post w (http_posts st) url prompt,
             mkState (clock_reads st) (llm_log st) (S (http_posts st)) (nli_log st)).

(** ** Numbers *)

Module PyNum.

(** [max(a, b)]: the first argument unless the second is greater. *)
Definition max (a b : Q) : Q := if Qle_bool b a then a else b.

(** [min(a, b)]: the first argument unless the second is smaller. *)
Definition min (a b : Q) : Q := if Qle_bool a b then a else b.

(** [sum(l)] *)
Definition sum (l : list Q) : Q := fold_left Qplus l 0%Q.

(** [round(x, ndigits)]: to the nearest multiple of [10^-ndigits], a tie
    to the even one. *)
Definition round (x : Q) (ndigits : nat) : Q :=
  let scale := Z.to_pos (10 ^ Z.of_nat ndigits) in
  let s := (x * inject_Z (Zpos scale))%Q in
  let f := Qfloor s in
  let n := match Qcompare (s - inject_Z f) (1 # 2) with
           | Lt => f
           | Gt => f + 1
           | Eq => if Z.even f then f else f + 1
           end in
  Qmake n scale.

End PyNum.

(** ** [engine/models.py]: the completion router *)

Record ModelRouter : Type := mkRouter {
  provider : string;
  model : string
}.

Module Router.

(** [os.getenv(...)] followed by [if not api_key]: an unset and an empty
    variable count alike. *)
Definition has_value (o : option string) : option string :=
  match o with
  | Some EmptyString => None
  | other => other
  end.

(** The constant parts of the payloads (model name, system prompt,
    temperature, [max_tokens or 300]) do not reach the engine; the oracle
    receives the URL and the prompt. *)
Definition _call_openai (w : World) (prompt : string) (max_tokens : option Z)
  : M string :=
  match has_value (getenv w "OPENAI_API_KEY") with
  | None => ret "[OPENAI] missing OPENAI_API_KEY"
  | Some _ =>
      r <- client_post w "https://api.openai.com/v1/completions" prompt ;;
      if negb (status_code r =? 200) then
        ret ("[OPENAI ERROR] " ++ PyStr.of_int (status_code r) ++ ": " ++ text r)
      else lift (content r)
  end.

Definition _call_anthropic (w : World) (prompt : string) (max_tokens : option Z)
  : M string :=
  match has_value (getenv w "ANTHROPIC_API_KEY") with
  | None => ret "[ANTHROPIC_API_KEY environment variable not set]"
  | Some _ =>
      r <- client_post w "https://api.anthropic.com/v1/messages" prompt ;;
      match status_fault r with
      | Some e => raise e
      | None => lift (content r)
      end
  end.

(** The [try ... except Exception] of the source turns every fault of the
    call and of the decoding into the diagnostic string. *)
Definition _call_ollama (w : World) (prompt : string) : M string :=
  fun st =>
    match (r <- client_post w "http://localhost:11434/api/generate" prompt ;;
           lift (content r)) st with
    | (Ok s, st') => (Ok s, st')
    | (Raise _, st') => (Ok "[Failed to call Ollama; is the service running?]", st')
    end.

Definition dispatch (self : ModelRouter) (w : World) (prompt : string)
    (max_tokens : option Z) : M string :=
  if String.eqb (provider self) "openai" then _call_openai w prompt max_tokens
  else if String.eqb (provider self) "anthropic" then _call_anthropic w prompt max_tokens
  else if String.eqb (provider self) "ollama" then _call_ollama w prompt
  else ret prompt.

(** [ModelRouter.completions]; the call and its outcome are logged. *)
Definition completions (self : ModelRouter) (w : World) (prompt : string)
    (max_tokens : option Z) : M string :=
  fun st =>
    let '(r, st') := dispatch self w prompt max_tokens st in
    (r, mkState (clock_reads st') (llm_log st' ++ [(prompt, r)])
                (http_posts st') (nli_log st')).

End Router.

(** ** [engine/retrieval.py]: nearest-neighbour search *)

(** [index] is the FAISS index composed with the embedding model: from a
    query and [k] to the distances and indices of the [k] nearest entries;
    [None] when no index was loaded. *)
Record Retriever : Type := mkRetriever {
  index : option (string -> Z -> list (Q * Z));
  texts : list string
}.

Module Retrieval.

Fixpoint collect (texts : list string) (found : list (Q * Z))
    (results : list (string * Q)) : list (string * Q) :=
  match found with
  | [] => results
  | (dist, idx) :: rest =>
      if (idx <? 0) || (Z.of_nat (List.length texts) <=? idx)
      then collect texts rest results
      else collect texts rest
             (results ++ [(nth (Z.to_nat idx) texts EmptyString, dist)])
  end.

Definition search (self : Retriever) (query : string) (k : Z)
  : list (string * Q) :=
  match index self, texts self with
  | None, _ => []
  | Some _, [] => []
  | Some idx, _ => collect (texts self) (idx query k) []
  end.

End Retrieval.

(** ** [engine/nli_contradiction.py]: the contradiction model *)

(** [contradiction a b] is the probability the model gives to "[a]
    contradicts [b]"; the model is in evaluation mode, so it is a function of
    the two sentences. *)
Record NLIDetector : Type := mkNLI {
  contradiction_prob : string -> string -> Q
}.

Definition contradiction (self : NLIDetector) (a b : string) : M Q :=
  fun st => (Ok (contradiction_prob self a b),
             mkState (clock_reads st) (llm_log st) (http_posts st)
                     (nli_log st ++ [(a, b)])).

(** ** [engine/curiosity_engine.py] *)

(** A candidate question, the dict [{"q": ..., "novelty": ...}]. *)
Record question : Type := mkQuestion {
  q : string;
  novelty : Q
}.

(** A contradictory pair, the dict [{"a": ..., "b": ..., "contradiction": ...}]. *)
Record dissonance : Type := mkDissonance {
  da : string;
  db : string;
  dscore : Q
}.

(** The values of the session dict, and the dict itself with its keys in
    insertion order. *)
Inductive value : Type :=
| VTrail (trail : list question)
| VFloat (x : Q).

Definition dict : Type := list (string * value).

Fixpoint dict_get (d : dict) (key : string) : option value :=
  match d with
  | [] => None
  | (k, v) :: rest => if String.eqb k key then Some v else dict_get rest key
  end.

Definition keys (d : dict) : list string := map fst d.

Record CuriosityEngine : Type := mkEngine {
  router : ModelRouter;
  retriever : Retriever;
  nli : NLIDetector;
  nov_thr : Q;
  max_s : Q;
  max_r : Z
}.

Definition rubric : string :=
  "Ask succinct expert-level questions (why/what if/how). Hunt contradictions and edge cases. "
  ++ "Avoid trivia.".

(** [self.prompt_template.format(rubric=..., ctx=..., n=...)] *)
Definition format_prompt (rubric ctx : string) (n : Z) : string :=
  rubric ++ PyStr.nl ++ "Context:" ++ PyStr.nl ++ "- " ++ ctx ++ PyStr.nl ++ PyStr.nl
  ++ "Produce up to " ++ PyStr.of_int n
  ++ " distinct questions (<=25 words). Number them.".

(** [questions.sort(key=lambda x: x["novelty"], reverse=True)]: the built-in
    sort is stable, also under [reverse=True], so an entry goes in front of
    the first entry whose key is not greater than its own. *)
Fixpoint insert_desc (x : question) (l : list question) : list question :=
  match l with
  | [] => [x]
  | y :: rest =>
      if Qle_bool (novelty y) (novelty x) then x :: y :: rest
      else y :: insert_desc x rest
  end.

Definition sort_desc (l : list question) : list question :=
  fold_right insert_desc [] l.

Section Engine.

(** [math.exp] *)
Variable exp : Q -> Q.

Variable self : CuriosityEngine.
Variable w : World.

Definition _novelty (question : string) : Q :=
  let hits := Retrieval.search (retriever self) question 5 in
  match hits with
  | [] => 1 # 2
  | _ =>
      let sims := map (fun h => exp (- PyNum.max (snd h) 0)) hits in
      let novelty := (1 - PyNum.sum sims / inject_Z (Z.of_nat (List.length sims)))%Q in
      PyNum.max 0 (PyNum.min 1 novelty)
  end.

(** Lines 109-114: remove a leading numbering.  [line] is not empty, its
    first character is [c0].  [line[1]] raises when the line has one
    character. *)
Definition strip_numbering (c0 : ascii) (line : string) : Result string :=
  let dot3 := PyStr.contains "." (PyStr.take 3 line) in
  let numbered :=
    if PyStr.isdigit c0 && dot3 then Ok true
    else if PyStr.isdigit c0 then
      match String.get 1 line with
      | Some c1 => Ok (Ascii.eqb c1 ")" || Ascii.eqb c1 ".")
      | None => Raise IndexError
      end
    else Ok false in
  match numbered with
  | Raise e => Raise e
  | Ok false => Ok line
  | Ok true =>
      let parts := if dot3 then PyStr.split1 "." line else PyStr.split1 ")" line in
      match parts with
      | [_; after] => Ok (PyStr.strip after)
      | _ => Ok line
      end
  end.

(** Lines 104-118: the parsing loop over the lines of the completion. *)
Fixpoint parse_lines (lines : list string) (questions : list question)
  : Result (list question) :=
  match lines with
  | [] => Ok questions
  | line :: rest =>
      match PyStr.strip line with
      | EmptyString => parse_lines rest questions
      | String c0 _ as line =>
          match strip_numbering c0 line with
          | Raise e => Raise e
          | Ok line =>
              if (String.length line <? 6)%nat then parse_lines rest questions
              else parse_lines rest
                     (questions ++ [mkQuestion line (_novelty line)])
          end
      end
  end.

Definition build_prompt (topic : string) (n : Z) : string :=
  let context_hits := Retrieval.search (retriever self) topic 6 in
  let context_lines := map fst context_hits in
  let context_block := String.concat (PyStr.nl ++ "- ") context_lines in
  format_prompt rubric context_block n.

Definition generate_questions (topic : string) (n : Z) : M (list question) :=
  let prompt := build_prompt topic n in
  raw_output <- Router.completions (router self) w prompt None ;;
  questions <- lift (parse_lines (PyStr.splitlines raw_output) []) ;;
  ret (sort_desc questions).

(** The loop of [bounded_explore], [rounds] iterations left. *)
Fixpoint explore_loop (rounds : nat) (start : Q) (per_round : Z)
    (trail : list question) (current_seed : string) : M (list question) :=
  match rounds with
  | O => ret trail
  | S rounds' =>
      now <- time_time w ;;
      if negb (Qle_bool (now - start) (max_s self)) then ret trail
      else
        batch <- generate_questions current_seed per_round ;;
        let fresh := filter (fun c => Qle_bool (nov_thr self) (novelty c)) batch in
        match fresh with
        | [] => ret trail
        | top :: _ => explore_loop rounds' start per_round (trail ++ fresh) (q top)
        end
  end.

Definition bounded_explore (seed : string) (per_round : Z) : M dict :=
  start <- time_time w ;;
  trail <- explore_loop (Z.to_nat (max_r self)) start per_round [] seed ;;
  finish <- time_time w ;;
  ret [("trail", VTrail trail); ("elapsed_s", VFloat (PyNum.round (finish - start) 2))].

(** [texts[i]] *)
Definition subscript (texts : list string) (i : nat) : M string :=
  match nth_error texts i with
  | Some t => ret t
  | None => raise IndexError
  end.

(** [range(lo, hi)] *)
Definition range (lo hi : nat) : list nat := seq lo (hi - lo).

Definition dissonance_scan (texts : list string) (threshold : Q)
  : M (list dissonance) :=
  let n := List.length texts in
  for_each (range 0 n) (fun i contradictions =>
    for_each (range (i + 1) n) (fun j contradictions =>
      a <- subscript texts i ;;
      b <- subscript texts j ;;
      score <- contradiction (nli self) a b ;;
      if Qle_bool threshold score
      then ret (contradictions ++ [mkDissonance a b (PyNum.round score 3)])%list
      else ret contradictions) contradictions) [].

End Engine.

(** ** The specification's wording of the same operations

    Independent definitions that follow the text of the specification, to be
    compared with the code above. *)

Module Spec.

(** *** Novelty (4.1) *)

Definition clamp01 (x : Q) : Q := Qmax 0 (Qmin 1 x).

Definition mean (l : list Q) : Q :=
  (fold_right Qplus 0 l / inject_Z (Z.of_nat (List.length l)))%Q.

Definition similarity (exp : Q -> Q) (d : Q) : Q := exp (- Qmax d 0)%Q.

Definition score (exp : Q -> Q) (distances : list Q) : Q :=
  match distances with
  | [] => 1 # 2
  | _ => clamp01 (1 - mean (map (similarity exp) distances))
  end.

(** *** The acceptance rule for one line of a completion (4.2) *)

(** The first character is a digit and either a period appears within the
    first three characters or the second character is [)] or [.]. *)
Definition enumerated (line : string) : bool :=
  match line with
  | EmptyString => false
  | String c0 _ =>
      PyStr.isdigit c0 &&
      (PyStr.contains "." (PyStr.take 3 line)
       || match String.get 1 line with
          | Some c1 => Ascii.eqb c1 ")" || Ascii.eqb c1 "."
          | None => false
          end)
  end.

(** Split on that delimiter and keep the remainder. *)
Definition remainder (line : string) : string :=
  let sep := if PyStr.contains "." (PyStr.take 3 line) then "."%char else ")"%char in
  match PyStr.partition sep line with
  | Some (_, after) => PyStr.strip after
  | None => line
  end.

(** The candidate text a line yields, if it survives. *)
Definition candidate (raw_line : string) : option string :=
  let line := PyStr.strip raw_line in
  if String.eqb line "" then None
  else
    let line := if enumerated line then remainder line else line in
    if (String.length line <? 6)%nat then None else Some line.

Definition surviving_of (lines : list string) : list string :=
  flat_map (fun l => match candidate l with Some c => [c] | None => [] end) lines.

(** The lines of a completion that survive parsing, in text order. *)
Definition surviving (raw : string) : list string :=
  surviving_of (PyStr.splitlines raw).

(** *** The pairs of a scan (4.4) *)

(** The index pairs [(i, j)] with [i < j < n], row by row. *)
Definition index_pairs (n : nat) : list (nat * nat) :=
  flat_map (fun i => map (pair i) (seq (S i) (n - S i))) (seq 0 n).

Definition lex_lt (p p' : nat * nat) : Prop :=
  (fst p < fst p')%nat \/ (fst p = fst p' /\ (snd p < snd p')%nat).

Definition text_pair (texts : list string) (p : nat * nat) : string * string :=
  (nth (fst p) texts EmptyString, nth (snd p) texts EmptyString).

Definition meets (self : NLIDetector) (threshold : Q) (p : string * string) : bool :=
  Qle_bool threshold (contradiction_prob self (fst p) (snd p)).

Definition record (self : NLIDetector) (p : string * string) : dissonance :=
  mkDissonance (fst p) (snd p) (PyNum.round (contradiction_prob self (fst p) (snd p)) 3).

(** Every element paired with every later one. *)
Fixpoint all_pairs (l : list string) : list (string * string) :=
  match l with
  | [] => []
  | x :: rest => map (pair x) rest ++ all_pairs rest
  end.

(** The output reports the unordered pair [{a, b}]. *)
Definition reports (out : list dissonance) (a b : string) : Prop :=
  exists d, In d out /\ ((da d = a /\ db d = b) \/ (da d = b /\ db d = a)).

(** Two scans report the same set of unordered pairs. *)
Definition same_unordered_pairs (out out' : list dissonance) : Prop :=
  forall a b, reports out a b <-> reports out' a b.

(** The property of 8: whatever the order of the texts, a scan that
    returns reports the same unordered pairs. *)
Definition order_independent (self : CuriosityEngine) (threshold : Q)
    (texts texts' : list string) : Prop :=
  forall st out st1 out' st1',
    dissonance_scan self texts threshold st = (Ok out, st1) ->
    dissonance_scan self texts' threshold st = (Ok out', st1') ->
    same_unordered_pairs out out'.

Definition symmetric (self : NLIDetector) : Prop :=
  forall a b, (contradiction_prob self a b == contradiction_prob self b a)%Q.

End Spec.

(** ** Concrete collaborators for the scenarios of the specification *)

Module Scenario.

(** A retriever without index never yields a distance, so [math.exp] is
    never called; any function stands for it. *)
Definition no_exp : Q -> Q := fun _ => 0%Q.

Definition no_index : Retriever := mkRetriever None [].

(** The clock advances by one second per reading. *)
Definition ticking (k : nat) : Q := inject_Z (Z.of_nat k).

(** A world without API keys whose endpoints answer 200 with [body]. *)
Definition answering (body : string) : World :=
  mkWorld ticking (fun _ => None)
          (fun _ _ _ => Ok (mkResponse 200 "" None (Ok body))).

(** A world whose endpoints fail with a transport fault from the
    [k]-th POST on, and answer [body] before. *)
Definition failing_from (k : nat) (body : string) : World :=
  mkWorld ticking (fun _ => Some "sk-test")
          (fun i _ _ => if (i <? k)%nat
                        then Ok (mkResponse 200 "" None (Ok body))
                        else Raise (Fault "ConnectError")).

Definition gravity_text : string :=
  "1. Why does mass bend spacetime?" ++ PyStr.nl
  ++ "2. What if gravity were repulsive at small scales?".

Definition steady_nli : NLIDetector := mkNLI (fun _ _ => 9 # 10).

(** A model that sees a contradiction from "A is true." only. *)
Definition directional_nli : NLIDetector :=
  mkNLI (fun a _ => if String.eqb a "A is true." then 9 # 10 else 1 # 10).

Definition engine (provider : string) (nli : NLIDetector)
    (novelty_threshold max_round_seconds : Q) (max_rounds : Z) : CuriosityEngine :=
  mkEngine (mkRouter provider "m") no_index nli
           novelty_threshold max_round_seconds max_rounds.

(** Scenario A of the specification: threshold 0.35, one round. *)
Definition scenario_a : CuriosityEngine := engine "ollama" steady_nli (35 # 100) 25 1.

(** Scenario B: threshold 0.9. *)
Definition scenario_b : CuriosityEngine := engine "ollama" steady_nli (9 # 10) 25 1.

(** Scenario D: no time budget. *)
Definition scenario_d : CuriosityEngine := engine "ollama" steady_nli (35 # 100) 0 1.

(** The OpenAI provider, three rounds. *)
Definition openai_engine : CuriosityEngine := engine "openai" steady_nli (35 # 100) 25 3.

(** A retriever over three snippets whose index answers fixed distances. *)
Definition small_index : Retriever :=
  mkRetriever (Some (fun _ _ => [((1 # 4)%Q, 0); (3%Q, 2); (7%Q, -1); ((-1 # 2)%Q, 1)]))
              ["mass curves spacetime"; "gravity is attractive"; "light bends"].

Definition indexed_engine : CuriosityEngine :=
  mkEngine (mkRouter "ollama" "m") small_index steady_nli (35 # 100) 25 1.

(** A bounded rational stand-in for [math.exp] on non-positive arguments. *)
Definition approx_exp (x : Q) : Q := (1 / (1 - x))%Q.

(** An index whose only distance grows with the length of the query, so
    that longer questions are more novel. *)
Definition length_index : Retriever :=
  mkRetriever (Some (fun query _ => [(Z.of_nat (String.length query) # 10, 0)]))
              ["known"].

Definition varied_engine : CuriosityEngine :=
  mkEngine (mkRouter "ollama" "m") length_index steady_nli (35 # 100) 25 1.

Definition three_lines : string :=
  "1. Is light a wave?" ++ PyStr.nl ++ "2) Why does time dilate near mass?"
  ++ PyStr.nl ++ "ok" ++ PyStr.nl ++ "3. Is sound a wave?".

End Scenario.

(** ** Auxiliary definitions of the statements and proofs *)

Ltac inv H := inversion H; subst; clear H.

(** The candidate made of an accepted line. *)
Definition as_question (exp : Q -> Q) (self : CuriosityEngine) (t : string) : question :=
  mkQuestion t (_novelty exp self t).

(** A line that strips to a lone digit. *)
Definition lone_digit (line : string) : bool :=
  match PyStr.strip line with
  | String c EmptyString => PyStr.isdigit c
  | _ => false
  end.

(** Descending order of novelty. *)
Definition desc (a b : question) : Prop := (novelty b <= novelty a)%Q.

(** The candidates of novelty [v]. *)
Definition has_novelty (v : Q) (c : question) : bool := Qeq_bool (novelty c) v.

(** Two states that differ in the number of POSTs at most. *)
Definition same_but_posts (st st' : State) : Prop :=
  clock_reads st' = clock_reads st /\ llm_log st' = llm_log st /\
  nli_log st' = nli_log st.

(** The state after one reading of the clock. *)
Definition tick (st : State) : State :=
  mkState (S (clock_reads st)) (llm_log st) (http_posts st) (nli_log st).

(** Line 152: the candidates of a batch at or above the threshold. *)
Definition fresh_of (self : CuriosityEngine) (batch : list question) : list question :=
  filter (fun c => Qle_bool (nov_thr self) (novelty c)) batch.

(** A logged completion call that returned a text. *)
Definition call_ok (c : string * Result string) : Prop := is_ok (snd c) = true.

(** The state after the given calls of the contradiction model. *)
Definition log_nli (st : State) (calls : list (string * string)) : State :=
  mkState (clock_reads st) (llm_log st) (http_posts st) (nli_log st ++ calls).

(** An index pair of the tail of a list, seen from the list. *)
Definition shift (p : nat * nat) : nat * nat := (S (fst p), S (snd p)).

(** [a] and [b] stand at two positions of the list, in either order. *)
Definition paired (l : list string) (a b : string) : Prop :=
  In (a, b) (Spec.all_pairs l) \/ In (b, a) (Spec.all_pairs l).

From Stdlib Require Import Lqa.

(** ** The rest of the code: router construction, orchestrator, endpoint *)

(** [str.lower] on one character: the capital letters of ASCII and of
    Latin-1 (all of [192..222] but the multiplication sign). *)
Definition lower_char (c : ascii) : ascii :=
  let n := PyStr.code c in
  if (((65 <=? n) && (n <=? 90))
      || ((192 <=? n) && (n <=? 222) && negb (n =? 215)))%N
  then ascii_of_N (n + 32)
  else c.

(** [s.lower()] *)
Fixpoint lower (s : string) : string :=
  match s with
  | EmptyString => EmptyString
  | String c rest => String (lower_char c) (lower rest)
  end.

(** [ModelRouter.__init__]: [provider, model = model_spec.split(":", 1)]
    raises [ValueError] when the split does not give two parts. *)
Definition ModelRouter_init (model_spec : string) : Result ModelRouter :=
  if PyStr.contains ":" model_spec then
    match PyStr.split1 ":" model_spec with
    | [provider; model] => Ok (mkRouter (lower provider) model)
    | _ => Raise (Fault "ValueError")
    end
  else Ok (mkRouter (lower "echo") model_spec).

(** *** [agents/orchestrator.py] *)

(** The dict [{"topic": ..., "session": ..., "dissonance": ...}]. *)
Record cycle : Type := mkCycle {
  c_topic : string;
  c_session : dict;
  c_dissonance : list dissonance
}.

(** [session["trail"]] *)
Definition session_trail (session : dict) : M (list question) :=
  match dict_get session "trail" with
  | Some (VTrail trail) => ret trail
  | Some (VFloat _) => raise (Fault "TypeError")
  | None => raise (Fault "KeyError")
  end.

Definition run_cycle (exp : Q -> Q) (engine : CuriosityEngine) (w : World)
    (topic : string) : M cycle :=
  session <- bounded_explore exp engine w topic 6 ;;
  trail <- session_trail session ;;
  let questions := firstn 8 (map q trail) in
  dissonance <- dissonance_scan engine questions (65 # 100) ;;
  ret (mkCycle topic session dissonance).

(** *** [app/main.py]: the [/ask] endpoint *)

(** [str(e)] *)
Definition exn_message (e : exn) : string :=
  match e with
  | IndexError => "string index out of range"
  | Fault detail => detail
  end.

(** What the endpoint answers: the response body, or an [HTTPException]. *)
Inductive reply : Type :=
| AskResponse (body : cycle)
| HTTPException (status : Z) (detail : string).

Definition ask (exp : Q -> Q) (engine : CuriosityEngine) (w : World)
    (topic : string) (st : State) : reply * State :=
  if String.eqb topic "" || String.eqb (PyStr.strip topic) "" then
    (HTTPException 400 "Topic must be a non-empty string.", st)
  else
    match run_cycle exp engine w topic st with
    | (Ok result, st') => (AskResponse result, st')
    | (Raise e, st') =>
        (HTTPException 500 ("Failed to generate questions: " ++ exn_message e), st')
    end.

(** *** Auxiliary definitions of the further properties *)

(** A candidate as the parsing loop makes them: at least six characters,
    nothing to strip, scored by [_novelty]. *)
Definition well_formed (exp : Q -> Q) (self : CuriosityEngine) (c : question) : Prop :=
  (6 <= String.length (q c))%nat /\
  PyStr.strip (q c) = q c /\
  novelty c = _novelty exp self (q c).

(** [lstrip] on the list of characters. *)
Fixpoint drop_spaces (l : list ascii) : list ascii :=
  match l with
  | c :: rest => if PyStr.isspace c then drop_spaces rest else l
  | [] => []
  end.

(** The retriever has nothing to search. *)
Definition unavailable (r : Retriever) : Prop := index r = None \/ texts r = [].

(** The provider is one of the three the router knows. *)
Definition calls_http (r : ModelRouter) : bool :=
  String.eqb (provider r) "openai" || String.eqb (provider r) "anthropic"
  || String.eqb (provider r) "ollama".

(** The text of the most novel candidate of a round. *)
Definition top_text (batch : list question) : string :=
  match batch with
  | top :: _ => q top
  | [] => EmptyString
  end.

(** Line 89 negated: the index the search got is one of a stored text. *)
Definition in_range (texts : list string) (found : Q * Z) : bool :=
  negb ((snd found <? 0) || (Z.of_nat (List.length texts) <=? snd found)).

(** The hit a found entry gives. *)
Definition hit_of (texts : list string) (found : Q * Z) : string * Q :=
  (nth (Z.to_nat (snd found)) texts EmptyString, fst found).

(** A round of the trail: the candidates one round appended. *)
Definition round_ok (exp : Q -> Q) (self : CuriosityEngine) (b : list question) : Prop :=
  b <> [] /\ StronglySorted desc b /\
  Forall (fun c => well_formed exp self c /\ (novelty c >= nov_thr self)%Q) b.

(** The state after a completion call that returned its prompt without a
    POST. *)
Definition echo_state (st : State) (prompt : string) : State :=
  mkState (clock_reads st) (llm_log st ++ [(prompt, Ok prompt)])
          (http_posts st) (nli_log st).

(** No character of the text is a line boundary. *)
Fixpoint one_line (s : string) : bool :=
  match s with
  | EmptyString => true
  | String c rest => negb (PyStr.is_linebreak c) && one_line rest
  end.

(** * Properties *)

(** ** The primitives on examples *)

Example splitlines_ex :
  PyStr.splitlines ("a" ++ PyStr.nl ++ PyStr.nl ++ "b c" ++ PyStr.nl) = ["a"; ""; "b c"].
Proof. reflexivity. Qed.

Example strip_ex : PyStr.strip "  1. Why?  " = "1. Why?".
Proof. reflexivity. Qed.

Example split1_ex : PyStr.split1 "." "1. a.b" = ["1"; " a.b"].
Proof. reflexivity. Qed.

Example of_int_ex : PyStr.of_int (-42) = "-42" /\ PyStr.of_int 6 = "6".
Proof. split; reflexivity. Qed.

Example round_ex :
  PyNum.round (12345 # 10000) 3 = (1234 # 1000)%Q /\
  PyNum.round (9 # 10) 3 = (900 # 1000)%Q /\
  PyNum.round (-15 # 10) 0 = (-2 # 1)%Q /\
  PyNum.round (25 # 10) 0 = (2 # 1)%Q.
Proof. repeat split; reflexivity. Qed.

Example retrieval_ex :
  Retrieval.search Scenario.small_index "gravity" 5
  = [("mass curves spacetime", 1 # 4); ("light bends", 3%Q);
     ("gravity is attractive", -1 # 2)].
Proof. reflexivity. Qed.

(** ** The monad *)

Lemma bind_cases {A B} (m : M A) (f : A -> M B) st r st' :
  bind m f st = (r, st') ->
  (exists a st1, m st = (Ok a, st1) /\ f a st1 = (r, st')) \/
  (exists e, m st = (Raise e, st') /\ r = Raise e).
Proof.
  unfold bind. destruct (m st) as [[a | e] st1]; intros H.
  - left. eauto.
  - right. inversion H; subst. eauto.
Qed.

Lemma bind_ok {A B} (m : M A) (f : A -> M B) st b st' :
  bind m f st = (Ok b, st') ->
  exists a st1, m st = (Ok a, st1) /\ f a st1 = (Ok b, st').
Proof.
  intros H. destruct (bind_cases _ _ _ _ _ H) as [H1 | [e [_ H1]]];
    [assumption | discriminate].
Qed.

Lemma bind_step {A B} (m : M A) (f : A -> M B) st a st1 :
  m st = (Ok a, st1) -> bind m f st = f a st1.
Proof. unfold bind. intros ->. reflexivity. Qed.

(** ** Numbers *)

Lemma py_max_Qmax a b : PyNum.max a b = Qmax a b.
Proof.
  unfold PyNum.max, Qmax, GenericMinMax.gmax.
  destruct (Qle_bool b a) eqn:E.
  - apply Qle_bool_iff in E. destruct (Qcompare_spec a b) as [H | H | H]; auto.
    exfalso. apply (Qlt_not_le _ _ H E).
  - destruct (Qcompare_spec a b) as [H | H | H]; auto.
    + assert (Qle_bool b a = true) by (apply Qle_bool_iff; rewrite H; apply Qle_refl).
      congruence.
    + assert (Qle_bool b a = true) by (apply Qle_bool_iff; apply Qlt_le_weak; exact H).
      congruence.
Qed.

Lemma py_min_Qmin a b : PyNum.min a b = Qmin a b.
Proof.
  unfold PyNum.min, Qmin, GenericMinMax.gmin.
  destruct (Qle_bool a b) eqn:E.
  - apply Qle_bool_iff in E. destruct (Qcompare_spec a b) as [H | H | H]; auto.
    exfalso. apply (Qlt_not_le _ _ H E).
  - destruct (Qcompare_spec a b) as [H | H | H]; auto.
    + assert (Qle_bool a b = true) by (apply Qle_bool_iff; rewrite H; apply Qle_refl).
      congruence.
    + assert (Qle_bool a b = true) by (apply Qle_bool_iff; apply Qlt_le_weak; exact H).
      congruence.
Qed.

Lemma clamp_eq x : PyNum.max 0 (PyNum.min 1 x) = Spec.clamp01 x.
Proof. unfold Spec.clamp01. rewrite py_min_Qmin, py_max_Qmax. reflexivity. Qed.

Lemma clamp01_range x : (0 <= Spec.clamp01 x <= 1)%Q.
Proof.
  unfold Spec.clamp01. split.
  - apply Q.le_max_l.
  - apply Q.max_lub.
    + discriminate.
    + apply Q.le_min_l.
Qed.

Lemma clamp01_compat x y : (x == y)%Q -> (Spec.clamp01 x == Spec.clamp01 y)%Q.
Proof.
  intros E. unfold Spec.clamp01.
  apply Q.max_compat; [reflexivity |]. apply Q.min_compat; [reflexivity | exact E].
Qed.

Lemma sum_from (l : list Q) (a : Q) :
  (fold_left Qplus l a == a + fold_right Qplus 0 l)%Q.
Proof.
  revert a. induction l as [| x l IH]; intros a; simpl.
  - ring.
  - rewrite IH. ring.
Qed.

Lemma sum_fold_right (l : list Q) : (PyNum.sum l == fold_right Qplus 0 l)%Q.
Proof. unfold PyNum.sum. rewrite sum_from. ring. Qed.

(** ** C2: the novelty score *)

Lemma similarity_eq exp (h : string * Q) :
  exp (- PyNum.max (snd h) 0)%Q = Spec.similarity exp (snd h).
Proof. unfold Spec.similarity. rewrite py_max_Qmax. reflexivity. Qed.

Lemma novelty_refines exp self question :
  (_novelty exp self question
   == Spec.score exp (map snd (Retrieval.search (retriever self) question 5)))%Q.
Proof.
  unfold _novelty.
  destruct (Retrieval.search (retriever self) question 5) as [| h hits].
  - reflexivity.
  - change (Spec.score exp (map snd (h :: hits)))
      with (Spec.clamp01 (1 - Spec.mean (map (Spec.similarity exp) (map snd (h :: hits))))).
    generalize (h :: hits) as l. intros l.
    rewrite clamp_eq, map_map.
    rewrite (map_ext _ _ (similarity_eq exp)).
    unfold Spec.mean. rewrite !length_map.
    apply clamp01_compat. rewrite sum_fold_right. reflexivity.
Qed.

(** C2.  [_novelty] returns a value in [[0,1]]; exactly [0.5] when the search
    returns no neighbour; otherwise one minus the mean of [exp(-max(d,0))]
    over the distances returned, clamped to [[0,1]]. *)
Theorem novelty_score_in_range (exp : Q -> Q) (self : CuriosityEngine)
    (question : string) :
  let hits := Retrieval.search (retriever self) question 5 in
  let s := _novelty exp self question in
  (0 <= s <= 1)%Q /\
  (hits = [] -> s = 1 # 2) /\
  (hits <> [] ->
   (s == Spec.clamp01 (1 - Spec.mean (map (fun h => exp (- Qmax (snd h) 0)%Q) hits)))%Q).
Proof.
  intros hits s. split; [| split].
  - subst s. unfold _novelty. fold hits. destruct hits.
    + split; discriminate.
    + rewrite clamp_eq. apply clamp01_range.
  - intros E. subst s. unfold _novelty. fold hits. rewrite E. reflexivity.
  - intros NE. subst s. rewrite novelty_refines. fold hits.
    unfold Spec.score. destruct hits as [| h t]; [congruence |].
    rewrite map_map. reflexivity.
Qed.

Lemma novelty_score_in_range_witness :
  _novelty Scenario.no_exp Scenario.scenario_a "gravity" = 1 # 2 /\
  (_novelty Scenario.approx_exp Scenario.indexed_engine "gravity"
   == Spec.clamp01 (1 - Spec.mean [4 # 5; 1 # 4; 1]))%Q.
Proof.
  split.
  - apply (novelty_score_in_range Scenario.no_exp Scenario.scenario_a "gravity").
    reflexivity.
  - apply (novelty_score_in_range Scenario.approx_exp Scenario.indexed_engine "gravity").
    discriminate.
Defined.

(** ** The parsing loop against the acceptance rule *)

Lemma strip_numbering_spec c0 rest line' :
  strip_numbering c0 (String c0 rest) = Ok line' ->
  line' = if Spec.enumerated (String c0 rest)
          then Spec.remainder (String c0 rest) else String c0 rest.
Proof.
  unfold strip_numbering, Spec.enumerated, Spec.remainder, PyStr.split1.
  set (line := String c0 rest).
  destruct (PyStr.isdigit c0); cbn [andb].
  - destruct (PyStr.contains "." (PyStr.take 3 line)); cbn [orb].
    + destruct (PyStr.partition "." line) as [[before after] |]; congruence.
    + destruct (String.get 1 line) as [c1 |]; [| discriminate].
      destruct (Ascii.eqb c1 ")" || Ascii.eqb c1 ".").
      * destruct (PyStr.partition ")" line) as [[before after] |]; congruence.
      * congruence.
  - congruence.
Qed.

(** The only line the loop cannot handle is a lone digit. *)
Lemma strip_numbering_raises c0 rest e :
  strip_numbering c0 (String c0 rest) = Raise e <->
  e = IndexError /\ PyStr.isdigit c0 = true /\ rest = EmptyString.
Proof.
  unfold strip_numbering, PyStr.split1.
  split.
  - destruct (PyStr.isdigit c0); cbn [andb].
    + destruct (PyStr.contains "." (PyStr.take 3 (String c0 rest))).
      * destruct (PyStr.partition "." (String c0 rest)) as [[before after] |]; discriminate.
      * destruct rest as [| c1 rest'].
        -- cbn. intros H; inv H. auto.
        -- cbn [String.get Nat.eqb]. 
           destruct (Ascii.eqb c1 ")" || Ascii.eqb c1 ".");
             [destruct (PyStr.partition ")" (String c0 (String c1 rest'))) as [[before after] |] |];
             discriminate.
    + discriminate.
  - intros [-> [D ->]]. rewrite D. cbn [PyStr.take PyStr.contains andb orb].
    destruct (Ascii.eqb "." c0) eqn:E.
    + apply Ascii.eqb_eq in E. subst c0. discriminate D.
    + reflexivity.
Qed.

Lemma candidate_of_strip exp self line c0 rest line' :
  PyStr.strip line = String c0 rest ->
  strip_numbering c0 (String c0 rest) = Ok line' ->
  (if (String.length line' <? 6)%nat then [] else [as_question exp self line'])
  = map (as_question exp self)
        match Spec.candidate line with Some c => [c] | None => [] end.
Proof.
  intros S N. apply strip_numbering_spec in N.
  unfold Spec.candidate. rewrite S. cbn [String.eqb]. rewrite <- N.
  destruct (String.length line' <? 6)%nat; reflexivity.
Qed.

Lemma parse_lines_spec exp self lines : forall acc parsed,
  parse_lines exp self lines acc = Ok parsed ->
  parsed = (acc ++ map (as_question exp self) (Spec.surviving_of lines))%list.
Proof.
  induction lines as [| line lines IH]; intros acc parsed H.
  - cbn in H. inv H. cbn. rewrite app_nil_r. reflexivity.
  - cbn [parse_lines] in H. unfold Spec.surviving_of. cbn [flat_map].
    fold (Spec.surviving_of lines). rewrite map_app.
    destruct (PyStr.strip line) as [| c0 rest] eqn:S.
    + apply IH in H. subst. unfold Spec.candidate. rewrite S. reflexivity.
    + destruct (strip_numbering c0 (String c0 rest)) as [line' | e] eqn:N;
        [| discriminate].
      rewrite <- (candidate_of_strip exp self _ _ _ _ S N).
      destruct (String.length line' <? 6)%nat; apply IH in H; subst.
      * reflexivity.
      * rewrite <- app_assoc. reflexivity.
Qed.

Lemma parse_lines_total exp self lines : forall acc,
  forallb (fun l => negb (lone_digit l)) lines = true ->
  exists parsed, parse_lines exp self lines acc = Ok parsed.
Proof.
  induction lines as [| line lines IH]; intros acc H.
  - cbn. eauto.
  - cbn [forallb] in H. apply andb_true_iff in H. destruct H as [L H].
    cbn [parse_lines]. unfold lone_digit in L.
    destruct (PyStr.strip line) as [| c0 rest] eqn:S; [apply IH; exact H |].
    destruct (strip_numbering c0 (String c0 rest)) as [line' | e] eqn:N.
    + destruct (String.length line' <? 6)%nat; apply IH; exact H.
    + apply strip_numbering_raises in N. destruct N as [_ [D ->]].
      rewrite D in L. discriminate.
Qed.

Lemma parse_lines_raises exp self lines : forall acc,
  existsb lone_digit lines = true ->
  parse_lines exp self lines acc = Raise IndexError.
Proof.
  induction lines as [| line lines IH]; intros acc H; [discriminate |].
  cbn [existsb] in H. cbn [parse_lines]. unfold lone_digit in H.
  destruct (PyStr.strip line) as [| c0 rest] eqn:S.
  - apply IH. exact H.
  - destruct (strip_numbering c0 (String c0 rest)) as [line' | e] eqn:N.
    + assert (L : (match rest with EmptyString => PyStr.isdigit c0 | _ => false end) = false).
      { destruct rest; [| reflexivity].
        destruct (PyStr.isdigit c0) eqn:D; [| reflexivity].
        assert (X : strip_numbering c0 (String c0 "") = Raise IndexError)
          by (apply strip_numbering_raises; auto).
        congruence. }
      rewrite L in H. cbn [orb] in H.
      destruct (String.length line' <? 6)%nat; apply IH; exact H.
    + apply strip_numbering_raises in N. destruct N as [-> _]. reflexivity.
Qed.

(** ** The sort *)

Lemma insert_desc_perm x l : Permutation (x :: l) (insert_desc x l).
Proof.
  induction l as [| y l IH]; cbn.
  - apply Permutation_refl.
  - destruct (Qle_bool (novelty y) (novelty x)).
    + apply Permutation_refl.
    + eapply perm_trans; [apply perm_swap |]. apply perm_skip. exact IH.
Qed.

Lemma sort_desc_perm l : Permutation l (sort_desc l).
Proof.
  induction l as [| x l IH]; cbn.
  - apply perm_nil.
  - eapply perm_trans; [apply perm_skip; exact IH |]. apply insert_desc_perm.
Qed.

Lemma insert_desc_sorted x l :
  StronglySorted desc l -> StronglySorted desc (insert_desc x l).
Proof.
  induction l as [| y l IH]; intros HS; cbn.
  - constructor; constructor.
  - inversion HS as [| ? ? HS' Hall]; subst.
    destruct (Qle_bool (novelty y) (novelty x)) eqn:E.
    + apply Qle_bool_iff in E. constructor; [exact HS |].
      constructor; [exact E |].
      eapply Forall_impl; [| exact Hall]. intros z Hz. unfold desc in *.
      eapply Qle_trans; eassumption.
    + constructor; [apply IH; exact HS' |].
      assert (Hxy : desc y x).
      { unfold desc. destruct (Qlt_le_dec (novelty y) (novelty x)) as [Hlt | Hle]; [| exact Hle].
        apply Qlt_le_weak in Hlt. apply Qle_bool_iff in Hlt. congruence. }
      eapply Permutation_Forall; [apply insert_desc_perm |].
      constructor; assumption.
Qed.

Lemma sort_desc_sorted l : StronglySorted desc (sort_desc l).
Proof.
  induction l as [| x l IH]; cbn.
  - constructor.
  - apply insert_desc_sorted. exact IH.
Qed.

Lemma insert_desc_stable v x l :
  filter (has_novelty v) (insert_desc x l) = filter (has_novelty v) (x :: l).
Proof.
  induction l as [| y l IH]; [reflexivity |].
  cbn [insert_desc]. destruct (Qle_bool (novelty y) (novelty x)) eqn:E; [reflexivity |].
  cbn [filter] in *. rewrite IH.
  destruct (has_novelty v x) eqn:Px, (has_novelty v y) eqn:Py; try reflexivity.
  exfalso. unfold has_novelty in *.
  apply Qeq_bool_iff in Px, Py.
  assert (Hle : (novelty y <= novelty x)%Q) by (rewrite Px, Py; apply Qle_refl).
  apply Qle_bool_iff in Hle. congruence.
Qed.

Lemma sort_desc_stable v l :
  filter (has_novelty v) (sort_desc l) = filter (has_novelty v) l.
Proof.
  induction l as [| x l IH]; [reflexivity |].
  cbn [sort_desc fold_right]. fold (sort_desc l).
  rewrite insert_desc_stable. cbn [filter]. rewrite IH. reflexivity.
Qed.

(** ** The completion router and the log of its calls *)

Lemma same_but_posts_refl st : same_but_posts st st.
Proof. repeat split. Qed.

Lemma client_post_frame w url prompt st r st' :
  client_post w url prompt st = (r, st') -> same_but_posts st st'.
Proof. unfold client_post. intros H; inv H. repeat split. Qed.

Lemma post_then_frame {A} w url prompt (k : response -> M A) st r st' :
  (forall resp s x s', k resp s = (x, s') -> s' = s) ->
  bind (client_post w url prompt) k st = (r, st') -> same_but_posts st st'.
Proof.
  intros Hk H. apply bind_cases in H.
  destruct H as [[resp [st1 [P K]]] | [e [P _]]].
  - apply Hk in K. subst. eapply client_post_frame; eassumption.
  - eapply client_post_frame; eassumption.
Qed.

Lemma dispatch_frame self w prompt mt st r st' :
  Router.dispatch self w prompt mt st = (r, st') -> same_but_posts st st'.
Proof.
  unfold Router.dispatch.
  destruct (String.eqb (provider self) "openai").
  { unfold Router._call_openai.
    destruct (Router.has_value (getenv w "OPENAI_API_KEY")).
    - apply post_then_frame. intros resp s0 x s1.
      destruct (negb (status_code resp =? 200)); unfold ret, lift; congruence.
    - unfold ret. intros H; inv H. apply same_but_posts_refl. }
  destruct (String.eqb (provider self) "anthropic").
  { unfold Router._call_anthropic.
    destruct (Router.has_value (getenv w "ANTHROPIC_API_KEY")).
    - apply post_then_frame. intros resp s0 x s1.
      destruct (status_fault resp); unfold raise, lift; congruence.
    - unfold ret. intros H; inv H. apply same_but_posts_refl. }
  destruct (String.eqb (provider self) "ollama").
  { unfold Router._call_ollama.
    destruct (bind (client_post w "http://localhost:11434/api/generate" prompt)
                   (fun r0 => lift (content r0)) st) as [x s1] eqn:B.
    assert (F : same_but_posts st s1).
    { eapply post_then_frame; [| exact B]. unfold lift. congruence. }
    destruct x; intros H; inv H; exact F. }
  unfold ret. intros H; inv H. apply same_but_posts_refl.
Qed.

Lemma completions_log self w prompt mt st r st' :
  Router.completions self w prompt mt st = (r, st') ->
  llm_log st' = (llm_log st ++ [(prompt, r)])%list /\
  clock_reads st' = clock_reads st /\ nli_log st' = nli_log st.
Proof.
  unfold Router.completions.
  destruct (Router.dispatch self w prompt mt st) as [x s1] eqn:D.
  apply dispatch_frame in D. destruct D as [C [L N]].
  intros H; inv H. cbn. rewrite L. auto.
Qed.

(** One round of generation: the completion is called once; a fault it
    raises is the outcome of the round, a text it returns is parsed and
    sorted. *)
Lemma generate_cases exp self w topic n st r st' :
  generate_questions exp self w topic n st = (r, st') ->
  exists rc,
    llm_log st' = (llm_log st ++ [(build_prompt self topic n, rc)])%list /\
    match rc with
    | Raise e => r = Raise e
    | Ok raw =>
        r = match parse_lines exp self (PyStr.splitlines raw) [] with
            | Ok parsed => Ok (sort_desc parsed)
            | Raise e => Raise e
            end
    end.
Proof.
  unfold generate_questions. intros H. apply bind_cases in H.
  destruct H as [[raw [st1 [C K]]] | [e [C ->]]].
  - exists (Ok raw). apply completions_log in C. destruct C as [L _].
    unfold bind, lift, ret in K.
    destruct (parse_lines exp self (PyStr.splitlines raw) []); inv K; auto.
  - exists (Raise e). apply completions_log in C. destruct C as [L _]. auto.
Qed.

Lemma generate_ok exp self w topic n st batch st' :
  generate_questions exp self w topic n st = (Ok batch, st') ->
  exists raw parsed,
    llm_log st' = (llm_log st ++ [(build_prompt self topic n, Ok raw)])%list /\
    parse_lines exp self (PyStr.splitlines raw) [] = Ok parsed /\
    batch = sort_desc parsed.
Proof.
  intros H. apply generate_cases in H. destruct H as [[raw | e] [L R]]; [| discriminate].
  destruct (parse_lines exp self (PyStr.splitlines raw) []) as [parsed | e] eqn:P;
    [| discriminate].
  inv R. eauto.
Qed.

(** ** C6: the batch is sorted by novelty, ties in text order *)

(** C6.  The batch [generate_questions] returns is the candidates parsed
    from the completion, in descending order of novelty; candidates of equal
    novelty keep the order they have in the completion text. *)
Theorem generate_sorted_stable (exp : Q -> Q) (self : CuriosityEngine) (w : World)
    (topic : string) (n : Z) (st st' : State) (batch : list question) :
  generate_questions exp self w topic n st = (Ok batch, st') ->
  exists raw parsed,
    In (build_prompt self topic n, Ok raw) (llm_log st') /\
    map q parsed = Spec.surviving raw /\
    Permutation parsed batch /\
    StronglySorted (fun a b => (novelty a >= novelty b)%Q) batch /\
    forall v, filter (has_novelty v) batch = filter (has_novelty v) parsed.
Proof.
  intros H. apply generate_ok in H. destruct H as [raw [parsed [L [P ->]]]].
  exists raw, parsed. repeat split.
  - rewrite L. apply in_or_app. right. left. reflexivity.
  - apply parse_lines_spec in P. subst parsed. cbn [app].
    rewrite map_map. cbn. apply map_id.
  - apply sort_desc_perm.
  - apply sort_desc_sorted.
  - intros v. apply sort_desc_stable.
Qed.

(** ** The exploration loop *)

(** One iteration of the loop, unfolded. *)
Lemma explore_loop_S exp self w k start per_round trail seed st :
  explore_loop exp self w (S k) start per_round trail seed st
  = if negb (Qle_bool (clock w (clock_reads st) - start) (max_s self))
    then (Ok trail, tick st)
    else match generate_questions exp self w seed per_round (tick st) with
         | (Raise e, st1) => (Raise e, st1)
         | (Ok batch, st1) =>
             match fresh_of self batch with
             | [] => (Ok trail, st1)
             | top :: _ =>
                 explore_loop exp self w k start per_round
                   (trail ++ fresh_of self batch) (q top) st1
             end
         end.
Proof.
  cbn [explore_loop]. unfold bind at 1, time_time at 1. fold (tick st).
  destruct (negb (Qle_bool (clock w (clock_reads st) - start) (max_s self)));
    [reflexivity |].
  unfold bind.
  destruct (generate_questions exp self w seed per_round (tick st)) as [[batch | e] st1];
    [| reflexivity].
  unfold fresh_of. destruct (filter _ batch); reflexivity.
Qed.

Lemma bounded_explore_cases exp self w seed per_round st r st' :
  bounded_explore exp self w seed per_round st = (r, st') ->
  let start := clock w (clock_reads st) in
  exists rl st1,
    explore_loop exp self w (Z.to_nat (max_r self)) start per_round [] seed (tick st)
    = (rl, st1) /\
    match rl with
    | Raise e => r = Raise e /\ st' = st1
    | Ok trail =>
        r = Ok [("trail", VTrail trail);
                ("elapsed_s", VFloat (PyNum.round (clock w (clock_reads st1) - start) 2))]
        /\ st' = tick st1
    end.
Proof.
  unfold bounded_explore. unfold bind at 1, time_time at 1. fold (tick st).
  intros H. cbv zeta.
  apply bind_cases in H. destruct H as [[trail [st1 [L K]]] | [e [L ->]]].
  - exists (Ok trail), st1. split; [exact L |].
    unfold bind, time_time, ret in K. inv K. split; reflexivity.
  - exists (Raise e), st'. split; [exact L |]. split; reflexivity.
Qed.

Lemma fresh_of_Forall self batch :
  Forall (fun c => (novelty c >= nov_thr self)%Q) (fresh_of self batch).
Proof.
  apply Forall_forall. intros c Hc. unfold fresh_of in Hc.
  apply filter_In in Hc. destruct Hc as [_ Hc]. apply Qle_bool_iff in Hc. exact Hc.
Qed.

(** The invariant of the loop: every entry of the trail meets the
    threshold, at every append. *)
Lemma explore_loop_fresh exp self w per_round start : forall k trail seed st t st',
  Forall (fun c => (novelty c >= nov_thr self)%Q) trail ->
  explore_loop exp self w k start per_round trail seed st = (Ok t, st') ->
  Forall (fun c => (novelty c >= nov_thr self)%Q) t.
Proof.
  induction k as [| k IH]; intros trail seed st t st' Inv H.
  - cbn in H. inv H. exact Inv.
  - rewrite explore_loop_S in H.
    destruct (negb (Qle_bool (clock w (clock_reads st) - start) (max_s self))).
    { inv H. exact Inv. }
    destruct (generate_questions exp self w seed per_round (tick st))
      as [[batch | e] st1]; [| discriminate].
    destruct (fresh_of self batch) as [| top rest] eqn:F.
    { inv H. exact Inv. }
    eapply IH; [| exact H].
    apply Forall_app. split; [exact Inv |].
    rewrite <- F. apply fresh_of_Forall.
Qed.

(** ** C3: every entry of the trail meets the novelty threshold *)

(** C3.  In the result of every session of [bounded_explore] that returns,
    every entry of the trail has a novelty of at least [novelty_threshold];
    by [explore_loop_fresh] this holds at every append. *)
Theorem trail_meets_threshold (exp : Q -> Q) (self : CuriosityEngine) (w : World)
    (seed : string) (per_round : Z) (st st' : State) (res : dict)
    (trail : list question) :
  bounded_explore exp self w seed per_round st = (Ok res, st') ->
  dict_get res "trail" = Some (VTrail trail) ->
  Forall (fun c => (novelty c >= nov_thr self)%Q) trail.
Proof.
  intros H G. apply bounded_explore_cases in H.
  destruct H as [[t | e] [st1 [L [R _]]]]; [| discriminate].
  inv R. cbn in G. inv G.
  eapply explore_loop_fresh; [| exact L]. constructor.
Qed.

(** ** The completion calls of a session *)

(** The calls a loop adds to the log all returned, or the last one raised
    and its fault is the outcome of the loop. *)
Lemma explore_loop_trace exp self w per_round start : forall k trail seed st r st',
  explore_loop exp self w k start per_round trail seed st = (r, st') ->
  exists calls,
    llm_log st' = (llm_log st ++ calls)%list /\
    (Forall call_ok calls \/
     exists p x earlier,
       calls = (earlier ++ [(p, Raise x)])%list /\ Forall call_ok earlier /\ r = Raise x).
Proof.
  induction k as [| k IH]; intros trail seed st r st' H.
  - cbn in H. inv H. exists []. rewrite app_nil_r. auto.
  - rewrite explore_loop_S in H.
    destruct (negb (Qle_bool (clock w (clock_reads st) - start) (max_s self))).
    { inv H. exists []. cbn. rewrite app_nil_r. auto. }
    destruct (generate_questions exp self w seed per_round (tick st))
      as [rg st1] eqn:G.
    apply generate_cases in G. destruct G as [rc [L R]]. cbn [tick llm_log] in L.
    destruct rc as [raw | x].
    + assert (Hone : Forall call_ok [(build_prompt self seed per_round, Ok raw)])
        by (constructor; [reflexivity | constructor]).
      destruct rg as [batch | e].
      * destruct (fresh_of self batch) as [| top rest].
        { inv H. eexists. split; [exact L |]. left. exact Hone. }
        apply IH in H. destruct H as [calls [L' C]].
        exists ((build_prompt self seed per_round, Ok raw) :: calls).
        split; [rewrite L', L, <- app_assoc; reflexivity |].
        destruct C as [C | [p [x [earlier [-> [E ->]]]]]].
        -- left. constructor; [reflexivity | exact C].
        -- right. exists p, x, ((build_prompt self seed per_round, Ok raw) :: earlier).
           repeat split. constructor; [reflexivity | exact E].
      * inv H. eexists. split; [exact L |]. left. exact Hone.
    + subst rg. inv H. eexists. split; [exact L |].
      right. exists (build_prompt self seed per_round), x, []. repeat split. constructor.
Qed.

Lemma fresh_of_length self batch :
  (List.length (fresh_of self batch) <= List.length batch)%nat.
Proof. apply filter_length_le. Qed.

Lemma generate_length exp self w topic n st batch st' :
  generate_questions exp self w topic n st = (Ok batch, st') ->
  exists raw,
    llm_log st' = (llm_log st ++ [(build_prompt self topic n, Ok raw)])%list /\
    List.length batch = List.length (Spec.surviving raw).
Proof.
  intros H. apply generate_ok in H. destruct H as [raw [parsed [L [P ->]]]].
  exists raw. split; [exact L |].
  rewrite <- (Permutation_length (sort_desc_perm parsed)).
  apply parse_lines_spec in P. subst parsed. cbn [app]. apply length_map.
Qed.

(** The trail grows by at most [per_round] entries a round, when no
    completion of the loop has more surviving lines than that. *)
Lemma explore_loop_length exp self w per_round start :
  0 <= per_round ->
  forall k trail seed st t st' calls,
  explore_loop exp self w k start per_round trail seed st = (Ok t, st') ->
  llm_log st' = (llm_log st ++ calls)%list ->
  (forall p raw, In (p, Ok raw) calls ->
                 Z.of_nat (List.length (Spec.surviving raw)) <= per_round) ->
  Z.of_nat (List.length t) <= Z.of_nat (List.length trail) + Z.of_nat k * per_round.
Proof.
  intros Hpr. induction k as [| k IH]; intros trail seed st t st' calls H L Hc.
  - cbn in H. inv H. lia.
  - rewrite explore_loop_S in H.
    destruct (negb (Qle_bool (clock w (clock_reads st) - start) (max_s self))).
    { inv H. nia. }
    destruct (generate_questions exp self w seed per_round (tick st))
      as [[batch | e] st1] eqn:G; [| discriminate].
    apply generate_length in G. destruct G as [raw [L1 Len]]. cbn [tick llm_log] in L1.
    destruct (fresh_of self batch) as [| top rest] eqn:F.
    { inv H. nia. }
    destruct (explore_loop_trace _ _ _ _ _ _ _ _ _ _ _ H) as [more [L2 _]].
    assert (Ecalls : calls = (build_prompt self seed per_round, Ok raw) :: more).
    { rewrite L1, <- app_assoc in L2. rewrite L in L2.
      apply app_inv_head in L2. exact L2. }
    specialize (IH _ _ _ _ _ more H L2).
    assert (Hm : forall p raw0, In (p, Ok raw0) more ->
                 Z.of_nat (List.length (Spec.surviving raw0)) <= per_round).
    { intros p raw0 Hin. apply (Hc p). rewrite Ecalls. right. exact Hin. }
    specialize (IH Hm).
    assert (Hraw : Z.of_nat (List.length (Spec.surviving raw)) <= per_round).
    { apply (Hc (build_prompt self seed per_round)). rewrite Ecalls. left. reflexivity. }
    pose proof (fresh_of_length self batch) as Hf. rewrite F in Hf.
    rewrite length_app in IH. lia.
Qed.

(** ** C1: the fields of the session result *)

(** C1 as stated fails: the result of Scenario A has the fields [trail] and
    [elapsed_s] and no [termination_reason]. *)
Lemma session_reason_missing :
  exists res st',
    bounded_explore Scenario.no_exp Scenario.scenario_a
      (Scenario.answering Scenario.gravity_text) "gravity" 2 init_state = (Ok res, st')
    /\ res = [("trail", VTrail [mkQuestion "Why does mass bend spacetime?" (1 # 2);
                                mkQuestion "What if gravity were repulsive at small scales?" (1 # 2)]);
              ("elapsed_s", VFloat (200 # 100))]
    /\ dict_get res "termination_reason" = None.
Proof. eexists. eexists. split; [reflexivity |]. split; reflexivity. Qed.

(** Scenario B ends because no candidate is fresh and Scenario D because the
    time budget is exceeded; the two results are the same. *)
Example reason_not_recoverable :
  fst (bounded_explore Scenario.no_exp Scenario.scenario_b
         (Scenario.answering Scenario.gravity_text) "gravity" 2 init_state)
  = fst (bounded_explore Scenario.no_exp Scenario.scenario_d
           (Scenario.answering Scenario.gravity_text) "gravity" 2 init_state).
Proof. reflexivity. Qed.

(** C1, amended.  The result of every session that returns has exactly the
    fields [trail] and [elapsed_s], the latter the time between the first and
    the last reading of the clock rounded to two decimals; it has no
    [termination_reason]. *)
Theorem session_result_fields (exp : Q -> Q) (self : CuriosityEngine) (w : World)
    (seed : string) (per_round : Z) (st st' : State) (res : dict) :
  bounded_explore exp self w seed per_round st = (Ok res, st') ->
  keys res = ["trail"; "elapsed_s"] /\
  dict_get res "termination_reason" = None /\
  (exists trail, dict_get res "trail" = Some (VTrail trail)) /\
  dict_get res "elapsed_s"
  = Some (VFloat (PyNum.round
                    (clock w (Nat.pred (clock_reads st')) - clock w (clock_reads st)) 2)).
Proof.
  intros H. apply bounded_explore_cases in H.
  destruct H as [[t | e] [st1 [_ [R S]]]]; [| discriminate].
  inv R. repeat split.
  exists t. reflexivity.
Qed.

Lemma session_result_fields_witness :
  keys [("trail", VTrail []); ("elapsed_s", VFloat (200 # 100))] = ["trail"; "elapsed_s"] /\
  dict_get [("trail", VTrail []); ("elapsed_s", VFloat (200 # 100))] "termination_reason" = None.
Proof.
  pose proof (session_result_fields Scenario.no_exp Scenario.scenario_d
                (Scenario.answering Scenario.gravity_text) "gravity" 2 init_state
                (mkState 3 [] 0 [])
                [("trail", VTrail []); ("elapsed_s", VFloat (200 # 100))]
                eq_refl) as [K [N _]].
  split; assumption.
Defined.

(** ** C4: the length of the trail *)

(** C4 as stated fails: with [max_rounds = 1] and [per_round = 1], a
    completion of two valid lines gives a trail of two entries. *)
Lemma trail_exceeds_budget :
  exists res st' trail,
    bounded_explore Scenario.no_exp Scenario.scenario_a
      (Scenario.answering Scenario.gravity_text) "gravity" 1 init_state = (Ok res, st')
    /\ dict_get res "trail" = Some (VTrail trail)
    /\ ~ (Z.of_nat (List.length trail) <= max_r Scenario.scenario_a * 1).
Proof.
  eexists. eexists. eexists. split; [reflexivity |]. split; [reflexivity |].
  cbn. lia.
Qed.

(** Why the amended bound asks for non-negative parameters: with a negative
    [max_rounds] no round runs, and with a negative [per_round] and no time
    budget none completes; the trail is empty and the product negative. *)
Example negative_parameters :
  fst (bounded_explore Scenario.no_exp
         (Scenario.engine "ollama" Scenario.steady_nli (35 # 100) 25 (-1))
         (Scenario.answering Scenario.gravity_text) "gravity" 1 init_state)
  = Ok [("trail", VTrail []); ("elapsed_s", VFloat (100 # 100))] /\
  fst (bounded_explore Scenario.no_exp Scenario.scenario_d
         (Scenario.answering Scenario.gravity_text) "gravity" (-1) init_state)
  = Ok [("trail", VTrail []); ("elapsed_s", VFloat (200 # 100))].
Proof. split; reflexivity. Qed.

(** C4, amended.  For non-negative [max_rounds] and [per_round], when no
    completion of the session has more than [per_round] surviving lines, the
    trail has at most [max_rounds * per_round] entries. *)
Theorem trail_length_bound (exp : Q -> Q) (self : CuriosityEngine) (w : World)
    (seed : string) (per_round : Z) (st st' : State) (res : dict)
    (trail : list question) (calls : list (string * Result string)) :
  0 <= max_r self ->
  0 <= per_round ->
  bounded_explore exp self w seed per_round st = (Ok res, st') ->
  dict_get res "trail" = Some (VTrail trail) ->
  llm_log st' = (llm_log st ++ calls)%list ->
  (forall p raw, In (p, Ok raw) calls ->
                 Z.of_nat (List.length (Spec.surviving raw)) <= per_round) ->
  Z.of_nat (List.length trail) <= max_r self * per_round.
Proof.
  intros Hr Hp H G L Hc. apply bounded_explore_cases in H.
  destruct H as [[t | e] [st1 [E [R S]]]]; [| discriminate].
  inv R. cbn in G. inv G. cbn [tick llm_log] in L.
  pose proof (explore_loop_length exp self w per_round _ Hp _ _ _ _ _ _ calls E L Hc) as B.
  cbn [List.length] in B. rewrite Z2Nat.id in B by exact Hr. lia.
Qed.

Lemma trail_length_bound_witness :
  Z.of_nat (List.length [mkQuestion "Why does mass bend spacetime?" (1 # 2);
                         mkQuestion "What if gravity were repulsive at small scales?" (1 # 2)])
  <= 1 * 2.
Proof.
  apply (trail_length_bound Scenario.no_exp Scenario.scenario_a
           (Scenario.answering Scenario.gravity_text) "gravity" 2 init_state
           (snd (bounded_explore Scenario.no_exp Scenario.scenario_a
                   (Scenario.answering Scenario.gravity_text) "gravity" 2 init_state))
           [("trail", VTrail [mkQuestion "Why does mass bend spacetime?" (1 # 2);
                              mkQuestion "What if gravity were repulsive at small scales?" (1 # 2)]);
            ("elapsed_s", VFloat (200 # 100))]
           _
           [(build_prompt Scenario.scenario_a "gravity" 2, Ok Scenario.gravity_text)]).
  - cbn. lia.
  - lia.
  - reflexivity.
  - reflexivity.
  - reflexivity.
  - intros p raw [H | []]. inversion H; subst. vm_compute. discriminate.
Defined.

(** ** C6, on a completion with a tie *)

Lemma generate_sorted_stable_witness :
  let batch := [mkQuestion "Why does time dilate near mass?" (31 # 41);
                mkQuestion "Is light a wave?" (16 # 26);
                mkQuestion "Is sound a wave?" (16 # 26)] in
  exists raw parsed,
    In (build_prompt Scenario.varied_engine "gravity" 1, Ok raw)
       (llm_log (snd (generate_questions Scenario.approx_exp Scenario.varied_engine
                        (Scenario.answering Scenario.three_lines) "gravity" 1 init_state))) /\
    map q parsed = Spec.surviving raw /\
    Permutation parsed batch /\
    StronglySorted (fun a b => (novelty a >= novelty b)%Q) batch /\
    forall v, filter (has_novelty v) batch = filter (has_novelty v) parsed.
Proof.
  intros batch.
  apply (generate_sorted_stable Scenario.approx_exp Scenario.varied_engine
           (Scenario.answering Scenario.three_lines) "gravity" 1 init_state).
  reflexivity.
Defined.

(** ** C10: the size of a batch *)

(** C10.  The number of candidates [generate_questions] returns is the number
    of lines of the completion that survive parsing, whatever the requested
    count [n], which occurs in the prompt only. *)
Theorem batch_size_is_surviving_lines (exp : Q -> Q) (self : CuriosityEngine)
    (w : World) (topic : string) (n : Z) (st st' : State) (batch : list question) :
  generate_questions exp self w topic n st = (Ok batch, st') ->
  exists raw,
    llm_log st' = (llm_log st ++ [(build_prompt self topic n, Ok raw)])%list /\
    List.length batch = List.length (Spec.surviving raw) /\
    Permutation (map q batch) (Spec.surviving raw).
Proof.
  intros H. apply generate_ok in H. destruct H as [raw [parsed [L [P ->]]]].
  exists raw. split; [exact L |].
  apply parse_lines_spec in P. cbn [app] in P.
  assert (Q : Permutation (map q (sort_desc parsed)) (Spec.surviving raw)).
  { eapply perm_trans; [apply Permutation_map, Permutation_sym, sort_desc_perm |].
    subst parsed. rewrite map_map. cbn. rewrite map_id. apply Permutation_refl. }
  split; [| exact Q].
  rewrite <- (Permutation_length Q). symmetry. apply length_map.
Qed.

(** One candidate requested, three returned. *)
Lemma batch_size_is_surviving_lines_witness :
  exists raw,
    llm_log (snd (generate_questions Scenario.approx_exp Scenario.varied_engine
                    (Scenario.answering Scenario.three_lines) "gravity" 1 init_state))
    = ([] ++ [(build_prompt Scenario.varied_engine "gravity" 1, Ok raw)])%list /\
    List.length [mkQuestion "Why does time dilate near mass?" (31 # 41);
                 mkQuestion "Is light a wave?" (16 # 26);
                 mkQuestion "Is sound a wave?" (16 # 26)]
    = List.length (Spec.surviving raw) /\
    Permutation (map q [mkQuestion "Why does time dilate near mass?" (31 # 41);
                        mkQuestion "Is light a wave?" (16 # 26);
                        mkQuestion "Is sound a wave?" (16 # 26)])
                (Spec.surviving raw).
Proof.
  apply (batch_size_is_surviving_lines Scenario.approx_exp Scenario.varied_engine
           (Scenario.answering Scenario.three_lines) "gravity" 1 init_state).
  reflexivity.
Defined.

Example more_than_requested :
  exists batch st',
    generate_questions Scenario.approx_exp Scenario.varied_engine
      (Scenario.answering Scenario.three_lines) "gravity" 1 init_state = (Ok batch, st')
    /\ (1 < List.length batch)%nat.
Proof. eexists. eexists. split; [reflexivity |]. cbn. lia. Qed.

(** ** C7: a completion without valid lines *)

Example empty_completion :
  fst (generate_questions Scenario.no_exp Scenario.scenario_a
         (Scenario.answering "") "gravity" 2 init_state) = Ok [].
Proof. reflexivity. Qed.

(** C7 fails on the code: the completion ["7"] has no line that survives the
    acceptance rule, and the parsing loop raises [IndexError] at [line[1]]
    where an empty batch is due. *)
Theorem lone_digit_completion_raises :
  Spec.surviving "7" = [] /\
  fst (generate_questions Scenario.no_exp Scenario.scenario_a
         (Scenario.answering "7") "gravity" 2 init_state) = Raise IndexError.
Proof. split; reflexivity. Qed.

(** The same on every completion with a line that is a lone digit. *)
Lemma lone_digit_raises exp self w topic n st raw st1 :
  Router.completions (router self) w (build_prompt self topic n) None st = (Ok raw, st1) ->
  existsb lone_digit (PyStr.splitlines raw) = true ->
  generate_questions exp self w topic n st = (Raise IndexError, st1).
Proof.
  intros C L. unfold generate_questions. rewrite (bind_step _ _ _ _ _ C).
  unfold bind, lift. rewrite (parse_lines_raises exp self _ [] L). reflexivity.
Qed.

(** Without such a line the loop returns. *)
Lemma no_lone_digit_returns exp self w topic n st raw st1 :
  Router.completions (router self) w (build_prompt self topic n) None st = (Ok raw, st1) ->
  forallb (fun l => negb (lone_digit l)) (PyStr.splitlines raw) = true ->
  exists batch, generate_questions exp self w topic n st = (Ok batch, st1).
Proof.
  intros C L. unfold generate_questions. rewrite (bind_step _ _ _ _ _ C).
  destruct (parse_lines_total exp self _ [] L) as [parsed P].
  unfold bind, lift, ret. rewrite P. eauto.
Qed.

(** ** C8: failures of the completion collaborator *)

Example openai_without_key w prompt mt st :
  Router.has_value (getenv w "OPENAI_API_KEY") = None ->
  Router._call_openai w prompt mt st = (Ok "[OPENAI] missing OPENAI_API_KEY", st).
Proof. unfold Router._call_openai. intros ->. reflexivity. Qed.

(** C8 as stated fails: without an API key the OpenAI provider returns its
    diagnostic string, the session is not aborted, and the diagnostic enters
    the trail as a question in each of the three rounds. *)
Lemma diagnostic_enters_trail :
  exists res st',
    bounded_explore Scenario.no_exp Scenario.openai_engine
      (Scenario.answering Scenario.gravity_text) "gravity" 6 init_state = (Ok res, st')
    /\ map snd (llm_log st') = [Ok "[OPENAI] missing OPENAI_API_KEY";
                                Ok "[OPENAI] missing OPENAI_API_KEY";
                                Ok "[OPENAI] missing OPENAI_API_KEY"]
    /\ dict_get res "trail"
       = Some (VTrail [mkQuestion "[OPENAI] missing OPENAI_API_KEY" (1 # 2);
                       mkQuestion "[OPENAI] missing OPENAI_API_KEY" (1 # 2);
                       mkQuestion "[OPENAI] missing OPENAI_API_KEY" (1 # 2)]).
Proof. eexists. eexists. split; [reflexivity |]. split; reflexivity. Qed.

(** C8, amended.  When a completion call of a session raises a fault, the
    session ends with that same fault and returns no result, hence no trail;
    the failing call is the last completion call of the session, and every
    earlier one returned: nothing is retried. *)
Theorem completion_fault_aborts_session (exp : Q -> Q) (self : CuriosityEngine)
    (w : World) (seed : string) (per_round : Z) (st st' : State)
    (r : Result dict) (calls : list (string * Result string))
    (p : string) (x : exn) :
  bounded_explore exp self w seed per_round st = (r, st') ->
  llm_log st' = (llm_log st ++ calls)%list ->
  In (p, Raise x) calls ->
  r = Raise x /\
  exists earlier, calls = (earlier ++ [(p, Raise x)])%list /\ Forall call_ok earlier.
Proof.
  intros H L Hin. apply bounded_explore_cases in H.
  destruct H as [rl [st1 [E R]]].
  apply explore_loop_trace in E. destruct E as [calls' [L' C]].
  cbn [tick llm_log] in L'.
  assert (Lst : llm_log st' = llm_log st1).
  { destruct rl; destruct R as [_ ->]; reflexivity. }
  assert (calls' = calls).
  { rewrite Lst, L' in L. apply app_inv_head in L. exact L. }
  subst calls'.
  assert (Hbad : ~ call_ok (p, Raise x)) by (unfold call_ok; cbn; discriminate).
  destruct C as [C | [p' [x' [earlier [-> [Hearlier ->]]]]]].
  - exfalso. apply Hbad. rewrite Forall_forall in C. apply C. exact Hin.
  - apply in_app_or in Hin. destruct Hin as [Hin | [Heq | []]].
    + exfalso. apply Hbad. rewrite Forall_forall in Hearlier. apply Hearlier. exact Hin.
    + inv Heq. split.
      * destruct R as [R _]. exact R.
      * exists earlier. split; [reflexivity | exact Hearlier].
Qed.

(** A text the completion returns, diagnostic or not, is parsed. *)
Lemma returned_text_is_parsed exp self w topic n st raw st1 :
  Router.completions (router self) w (build_prompt self topic n) None st = (Ok raw, st1) ->
  generate_questions exp self w topic n st
  = (match parse_lines exp self (PyStr.splitlines raw) [] with
     | Ok parsed => Ok (sort_desc parsed)
     | Raise e => Raise e
     end, st1).
Proof.
  intros C. unfold generate_questions. rewrite (bind_step _ _ _ _ _ C).
  unfold bind, lift, ret.
  destruct (parse_lines exp self (PyStr.splitlines raw) []); reflexivity.
Qed.

(** A transport fault in the second round of a session with an API key. *)
Lemma completion_fault_aborts_session_witness :
  fst (bounded_explore Scenario.no_exp Scenario.openai_engine
         (Scenario.failing_from 1 Scenario.gravity_text) "gravity" 6 init_state)
  = Raise (Fault "ConnectError") /\
  exists earlier,
    [(build_prompt Scenario.openai_engine "gravity" 6, Ok Scenario.gravity_text);
     (build_prompt Scenario.openai_engine "Why does mass bend spacetime?" 6,
      Raise (Fault "ConnectError"))]
    = (earlier ++ [(build_prompt Scenario.openai_engine "Why does mass bend spacetime?" 6,
                    Raise (Fault "ConnectError"))])%list
    /\ Forall call_ok earlier.
Proof.
  apply (completion_fault_aborts_session Scenario.no_exp Scenario.openai_engine
           (Scenario.failing_from 1 Scenario.gravity_text) "gravity" 6 init_state
           (snd (bounded_explore Scenario.no_exp Scenario.openai_engine
                   (Scenario.failing_from 1 Scenario.gravity_text) "gravity" 6 init_state))).
  - reflexivity.
  - reflexivity.
  - right. left. reflexivity.
Defined.

(** C3 on the session of Scenario A with an index: the three entries of the
    trail are at or above the threshold 0.35. *)
Lemma trail_meets_threshold_witness :
  Forall (fun c => (novelty c >= 35 # 100)%Q)
         [mkQuestion "Why does time dilate near mass?" (31 # 41);
          mkQuestion "Is light a wave?" (16 # 26);
          mkQuestion "Is sound a wave?" (16 # 26)].
Proof.
  apply (trail_meets_threshold Scenario.approx_exp Scenario.varied_engine
           (Scenario.answering Scenario.three_lines) "gravity" 1 init_state
           (snd (bounded_explore Scenario.approx_exp Scenario.varied_engine
                   (Scenario.answering Scenario.three_lines) "gravity" 1 init_state))
           [("trail", VTrail [mkQuestion "Why does time dilate near mass?" (31 # 41);
                              mkQuestion "Is light a wave?" (16 # 26);
                              mkQuestion "Is sound a wave?" (16 # 26)]);
            ("elapsed_s", VFloat (200 # 100))]).
  - reflexivity.
  - reflexivity.
Defined.

(** ** The dissonance scan *)

Lemma log_nli_nil st : log_nli st [] = st.
Proof. destruct st. unfold log_nli. cbn. rewrite app_nil_r. reflexivity. Qed.

Lemma log_nli_app st a b : log_nli (log_nli st a) b = log_nli st (a ++ b)%list.
Proof. unfold log_nli. cbn. rewrite app_assoc. reflexivity. Qed.

(** A loop whose body returns and logs calls is a fold. *)
Lemma for_each_fold {A S} (body : A -> S -> M S) (step : A -> S -> S)
    (calls : A -> list (string * string)) : forall (l : list A),
  (forall x, In x l -> forall acc st, body x acc st = (Ok (step x acc), log_nli st (calls x))) ->
  forall acc st,
    for_each l body acc st
    = (Ok (fold_left (fun a x => step x a) l acc), log_nli st (flat_map calls l)).
Proof.
  induction l as [| x l IH]; intros Hb acc st.
  - cbn. unfold ret. rewrite log_nli_nil. reflexivity.
  - cbn [for_each fold_left flat_map].
    rewrite (bind_step _ _ _ _ _ (Hb x (or_introl eq_refl) acc st)).
    rewrite IH by (intros y Hy; apply Hb; right; exact Hy).
    rewrite log_nli_app. reflexivity.
Qed.

Lemma fold_left_snoc_filter {A B} (keep : A -> bool) (f : A -> B) : forall l acc,
  fold_left (fun a x => if keep x then (a ++ [f x])%list else a) l acc
  = (acc ++ map f (filter keep l))%list.
Proof.
  induction l as [| x l IH]; intros acc; cbn.
  - rewrite app_nil_r. reflexivity.
  - rewrite IH. destruct (keep x); [| reflexivity].
    cbn. rewrite <- app_assoc. reflexivity.
Qed.

Lemma fold_left_append {A B} (f : A -> list B) : forall l acc,
  fold_left (fun a x => (a ++ f x)%list) l acc = (acc ++ flat_map f l)%list.
Proof.
  induction l as [| x l IH]; intros acc; cbn.
  - rewrite app_nil_r. reflexivity.
  - rewrite IH, app_assoc. reflexivity.
Qed.

Lemma map_flat_map {A B C} (g : B -> C) (f : A -> list B) l :
  map g (flat_map f l) = flat_map (fun x => map g (f x)) l.
Proof.
  induction l as [| x l IH]; cbn; [reflexivity |].
  rewrite map_app, IH. reflexivity.
Qed.

Lemma filter_flat_map {A B} (p : B -> bool) (f : A -> list B) l :
  filter p (flat_map f l) = flat_map (fun x => filter p (f x)) l.
Proof.
  induction l as [| x l IH]; cbn; [reflexivity |].
  rewrite filter_app, IH. reflexivity.
Qed.

Lemma flat_map_singleton {A B} (f : A -> B) l :
  flat_map (fun x => [f x]) l = map f l.
Proof. induction l as [| x l IH]; cbn; congruence. Qed.

Lemma subscript_in_range texts i st :
  (i < List.length texts)%nat ->
  subscript texts i st = (Ok (nth i texts EmptyString), st).
Proof.
  intros H. unfold subscript.
  rewrite (nth_error_nth' texts EmptyString H). reflexivity.
Qed.

(** The scan as a function of the texts: every index pair in turn. *)
Lemma dissonance_scan_eq self texts threshold st :
  let pairs := map (Spec.text_pair texts) (Spec.index_pairs (List.length texts)) in
  dissonance_scan self texts threshold st
  = (Ok (map (Spec.record (nli self)) (filter (Spec.meets (nli self) threshold) pairs)),
     log_nli st pairs).
Proof.
  intros pairs. unfold dissonance_scan.
  set (n := List.length texts).
  set (row := fun i : nat => map (fun j => Spec.text_pair texts (i, j)) (range (i + 1) n)).
  rewrite (for_each_fold _
             (fun i acc => acc ++ map (Spec.record (nli self))
                                      (filter (Spec.meets (nli self) threshold) (row i)))%list
             row).
  - rewrite fold_left_append. cbn [app].
    assert (E : flat_map row (range 0 n) = pairs).
    { subst pairs. unfold Spec.index_pairs. rewrite map_flat_map.
      unfold range. rewrite Nat.sub_0_r. apply flat_map_ext. intros i.
      subst row. cbn beta. rewrite map_map, Nat.add_1_r. reflexivity. }
    rewrite <- E, filter_flat_map, map_flat_map. reflexivity.
  - intros i Hi acc st0. unfold range in Hi. apply in_seq in Hi.
    rewrite (for_each_fold _
               (fun j acc =>
                  if Spec.meets (nli self) threshold (Spec.text_pair texts (i, j))
                  then acc ++ [Spec.record (nli self) (Spec.text_pair texts (i, j))]
                  else acc)%list
               (fun j => [Spec.text_pair texts (i, j)])).
    + rewrite (fold_left_snoc_filter
                 (fun j => Spec.meets (nli self) threshold (Spec.text_pair texts (i, j)))
                 (fun j => Spec.record (nli self) (Spec.text_pair texts (i, j)))).
      subst row. cbn beta.
      rewrite <- (map_map (fun j => Spec.text_pair texts (i, j)) (Spec.record (nli self))).
      assert (F : forall l,
                 map (fun j => Spec.text_pair texts (i, j))
                     (filter (fun j => Spec.meets (nli self) threshold
                                         (Spec.text_pair texts (i, j))) l)
                 = filter (Spec.meets (nli self) threshold)
                          (map (fun j => Spec.text_pair texts (i, j)) l)).
      { induction l as [| j l IHl]; cbn; [reflexivity |].
        destruct (Spec.meets (nli self) threshold (Spec.text_pair texts (i, j)));
          cbn; rewrite IHl; reflexivity. }
      rewrite F, flat_map_singleton. reflexivity.
    + intros j Hj acc0 st1. unfold range in Hj. apply in_seq in Hj.
      rewrite (bind_step _ _ _ _ _ (subscript_in_range texts i st1 ltac:(fold n; lia))).
      rewrite (bind_step _ _ _ _ _ (subscript_in_range texts j st1 ltac:(fold n; lia))).
      unfold bind, contradiction, Spec.meets, Spec.record, Spec.text_pair, ret, log_nli.
      cbn [fst snd].
      destruct (Qle_bool threshold _); reflexivity.
Qed.

(** *** The index pairs *)

Lemma in_index_pairs n i j :
  In (i, j) (Spec.index_pairs n) <-> (i < j < n)%nat.
Proof.
  unfold Spec.index_pairs. rewrite in_flat_map. split.
  - intros [a [Ha Hp]]. apply in_map_iff in Hp. destruct Hp as [b [E Hb]].
    inv E. apply in_seq in Ha, Hb. lia.
  - intros H. exists i. split; [apply in_seq; lia |].
    apply in_map_iff. exists j. split; [reflexivity | apply in_seq; lia].
Qed.

Lemma sorted_app {A} (R : A -> A -> Prop) (l1 l2 : list A) :
  StronglySorted R l1 -> StronglySorted R l2 ->
  (forall x y, In x l1 -> In y l2 -> R x y) ->
  StronglySorted R (l1 ++ l2).
Proof.
  induction l1 as [| a l1 IH]; intros S1 S2 Hc; cbn; [exact S2 |].
  inversion S1 as [| ? ? S1' Ha]; subst. constructor.
  - apply IH; [exact S1' | exact S2 |]. intros x y Hx Hy. apply Hc; [right |]; assumption.
  - apply Forall_app. split; [exact Ha |].
    apply Forall_forall. intros y Hy. apply Hc; [left; reflexivity | exact Hy].
Qed.

Lemma sorted_irrefl_NoDup {A} (R : A -> A -> Prop) (l : list A) :
  (forall x, ~ R x x) -> StronglySorted R l -> NoDup l.
Proof.
  intros Hirr. induction 1 as [| a l HS IH Ha]; constructor; [| exact IH].
  intros Hin. rewrite Forall_forall in Ha. exact (Hirr a (Ha a Hin)).
Qed.

Lemma row_sorted i : forall len s,
  StronglySorted Spec.lex_lt (map (pair i) (seq s len)).
Proof.
  induction len as [| len IH]; intros s; cbn; constructor; [apply IH |].
  apply Forall_forall. intros p Hp. apply in_map_iff in Hp.
  destruct Hp as [j [<- Hj]]. apply in_seq in Hj.
  right. cbn. split; [reflexivity | lia].
Qed.

Lemma rows_sorted n : forall k a,
  StronglySorted Spec.lex_lt
    (flat_map (fun i => map (pair i) (seq (S i) (n - S i))) (seq a k)).
Proof.
  induction k as [| k IH]; intros a; cbn; [constructor |].
  apply sorted_app; [apply row_sorted | apply IH |].
  intros x y Hx Hy. apply in_map_iff in Hx. destruct Hx as [j [<- _]].
  apply in_flat_map in Hy. destruct Hy as [i [Hi Hy]].
  apply in_map_iff in Hy. destruct Hy as [j' [<- _]]. apply in_seq in Hi.
  left. cbn. lia.
Qed.

Lemma index_pairs_sorted n : StronglySorted Spec.lex_lt (Spec.index_pairs n).
Proof. apply rows_sorted. Qed.

Lemma lex_lt_irrefl p : ~ Spec.lex_lt p p.
Proof. unfold Spec.lex_lt. lia. Qed.

Lemma rows_length n : forall k a,
  (a + k = n)%nat ->
  (2 * List.length (flat_map (fun i => map (pair i) (seq (S i) (n - S i))) (seq a k))
   = k * (k - 1))%nat.
Proof.
  induction k as [| k IH]; intros a E; cbn [seq flat_map]; [reflexivity |].
  rewrite length_app, length_map, length_seq.
  specialize (IH (S a) ltac:(lia)).
  replace (n - S a)%nat with k by lia.
  replace (S k - 1)%nat with k by lia.
  destruct k as [| k']; [cbn in *; lia |].
  replace (S k' - 1)%nat with k' in IH by lia. nia.
Qed.

Lemma index_pairs_length n :
  List.length (Spec.index_pairs n) = (n * (n - 1) / 2)%nat.
Proof.
  pose proof (rows_length n n 0 eq_refl) as H. fold (Spec.index_pairs n) in H.
  rewrite <- H, Nat.mul_comm. symmetry. apply Nat.div_mul. discriminate.
Qed.

(** ** C5: the scan evaluates every pair once, in order *)

(** C5.  On [n] texts the scan calls the contradiction model [n*(n-1)/2]
    times, once for each index pair [(i, j)] with [i < j], on [(texts[i],
    texts[j])] and in ascending order of [(i, j)]; it returns, for exactly the
    pairs whose probability is at least the threshold and in the same order,
    the record of the two texts and the probability rounded to three
    decimals. *)
Theorem scan_evaluates_all_pairs (self : CuriosityEngine) (texts : list string)
    (threshold : Q) (st : State) :
  let n := List.length texts in
  let pairs := map (Spec.text_pair texts) (Spec.index_pairs n) in
  exists st',
    dissonance_scan self texts threshold st
    = (Ok (map (Spec.record (nli self))
               (filter (Spec.meets (nli self) threshold) pairs)), st') /\
    nli_log st' = (nli_log st ++ pairs)%list /\
    List.length pairs = (n * (n - 1) / 2)%nat /\
    (forall i j, In (i, j) (Spec.index_pairs n) <-> (i < j < n)%nat) /\
    NoDup (Spec.index_pairs n) /\
    StronglySorted Spec.lex_lt (Spec.index_pairs n).
Proof.
  intros n pairs. exists (log_nli st pairs). split; [apply dissonance_scan_eq |].
  split; [reflexivity |]. split; [| split; [| split]].
  - subst pairs. rewrite length_map. apply index_pairs_length.
  - intros i j. apply in_index_pairs.
  - eapply sorted_irrefl_NoDup; [apply lex_lt_irrefl | apply index_pairs_sorted].
  - apply index_pairs_sorted.
Qed.

(** Scenario C of the specification. *)
Example scenario_c :
  fst (dissonance_scan Scenario.scenario_a ["A is true."; "A is false."] (1 # 2) init_state)
  = Ok [mkDissonance "A is true." "A is false." (900 # 1000)].
Proof. reflexivity. Qed.

(** *** The pairs of a scan, without indices *)

Lemma flat_map_map {A B C} (f : B -> list C) (g : A -> B) l :
  flat_map f (map g l) = flat_map (fun x => f (g x)) l.
Proof. induction l as [| x l IH]; cbn; congruence. Qed.

Lemma index_pairs_S n :
  Spec.index_pairs (S n)
  = (map (pair 0%nat) (seq 1 n) ++ map shift (Spec.index_pairs n))%list.
Proof.
  unfold Spec.index_pairs. cbn [seq flat_map].
  replace (S n - 1)%nat with n by lia. f_equal.
  rewrite <- seq_shift, flat_map_map, map_flat_map.
  apply flat_map_ext. intros i.
  replace (S n - S (S i))%nat with (n - S i)%nat by lia.
  rewrite <- seq_shift, !map_map. reflexivity.
Qed.

Lemma nth_all (l : list string) :
  map (fun j => nth j l EmptyString) (seq 0 (List.length l)) = l.
Proof.
  induction l as [| x l IH]; cbn; [reflexivity |].
  f_equal. rewrite <- seq_shift, map_map. exact IH.
Qed.

Lemma all_pairs_index (l : list string) :
  map (Spec.text_pair l) (Spec.index_pairs (List.length l)) = Spec.all_pairs l.
Proof.
  induction l as [| x l IH]; [reflexivity |].
  cbn [List.length Spec.all_pairs]. rewrite index_pairs_S, map_app, !map_map.
  f_equal.
  - rewrite <- seq_shift, map_map. unfold Spec.text_pair. cbn [fst snd nth].
    rewrite <- (nth_all l) at 2. rewrite map_map. reflexivity.
  - rewrite <- IH. apply map_ext. intros [i j]. reflexivity.
Qed.

Lemma in_all_pairs_cons a b x l :
  In (a, b) (Spec.all_pairs (x :: l)) <-> (a = x /\ In b l) \/ In (a, b) (Spec.all_pairs l).
Proof.
  cbn [Spec.all_pairs]. rewrite in_app_iff, in_map_iff. split.
  - intros [[y [E Hy]] | H]; [| right; exact H]. inv E. left. auto.
  - intros [[-> Hb] | H]; [| right; exact H]. left. exists b. auto.
Qed.

Lemma paired_perm l l' a b : Permutation l l' -> paired l a b -> paired l' a b.
Proof.
  intros P. revert a b. induction P as [| x l l' P IH | x y l | l l' l'' P1 IH1 P2 IH2];
    intros a b H.
  - exact H.
  - unfold paired in *. rewrite !in_all_pairs_cons in *.
    destruct H as [[[-> Hb] | H] | [[-> Ha] | H]].
    + left. left. split; [reflexivity | eapply Permutation_in; eassumption].
    + destruct (IH a b (or_introl H)); [left | right]; right; assumption.
    + right. left. split; [reflexivity | eapply Permutation_in; eassumption].
    + destruct (IH a b (or_intror H)); [left | right]; right; assumption.
  - unfold paired in *. rewrite !in_all_pairs_cons in *. cbn [In] in *.
    intuition (subst; auto 6).
  - apply IH2, IH1, H.
Qed.

Lemma meets_symmetric self threshold a b :
  Spec.symmetric self ->
  Spec.meets self threshold (a, b) = Spec.meets self threshold (b, a).
Proof.
  intros Hs. unfold Spec.meets. cbn [fst snd].
  destruct (Qle_bool threshold (contradiction_prob self b a)) eqn:E.
  - apply Qle_bool_iff. apply Qle_bool_iff in E. rewrite (Hs a b). exact E.
  - destruct (Qle_bool threshold (contradiction_prob self a b)) eqn:E'; [| reflexivity].
    apply Qle_bool_iff in E'. rewrite (Hs a b) in E'. apply Qle_bool_iff in E'. congruence.
Qed.

Lemma reports_paired self threshold l a b :
  Spec.symmetric self ->
  Spec.reports (map (Spec.record self) (filter (Spec.meets self threshold) (Spec.all_pairs l)))
               a b
  <-> paired l a b /\ Spec.meets self threshold (a, b) = true.
Proof.
  intros Hs. unfold Spec.reports, paired. split.
  - intros [d [Hd Hab]]. apply in_map_iff in Hd. destruct Hd as [[u v] [<- Hp]].
    apply filter_In in Hp. destruct Hp as [Hin Hm]. cbn [Spec.record da db fst snd] in Hab.
    destruct Hab as [[-> ->] | [-> ->]].
    + split; [left; exact Hin | exact Hm].
    + split; [right; exact Hin |]. rewrite (meets_symmetric _ _ _ _ Hs). exact Hm.
  - intros [[Hin | Hin] Hm].
    + exists (Spec.record self (a, b)). split; [| left; split; reflexivity].
      apply in_map, filter_In. split; assumption.
    + exists (Spec.record self (b, a)). split; [| right; split; reflexivity].
      apply in_map, filter_In. split; [exact Hin |].
      rewrite (meets_symmetric _ _ _ _ Hs). exact Hm.
Qed.

(** ** C9: the scan and the order of its input *)

(** C9 as stated fails: a model that sees a contradiction from "A is true."
    to "A is false." and none the other way reports the pair for one order of
    the two texts and nothing for the other. *)
Lemma scan_depends_on_order :
  Permutation ["A is true."; "A is false."] ["A is false."; "A is true."] /\
  ~ Spec.order_independent
      (Scenario.engine "ollama" Scenario.directional_nli (35 # 100) 25 1) (1 # 2)
      ["A is true."; "A is false."] ["A is false."; "A is true."].
Proof.
  split; [apply perm_swap |].
  intros H.
  specialize (H init_state _ _ _ _ eq_refl eq_refl "A is true." "A is false.").
  destruct H as [H _].
  destruct H as [d [[] _]].
  exists (mkDissonance "A is true." "A is false." (900 # 1000)).
  split; [left; reflexivity | left; split; reflexivity].
Qed.

(** C9, amended.  For a contradiction model that is symmetric, the scans of
    two lists that are permutations of each other report the same set of
    unordered pairs. *)
Theorem scan_order_independent (self : CuriosityEngine) (threshold : Q)
    (texts texts' : list string) :
  Spec.symmetric (nli self) ->
  Permutation texts texts' ->
  Spec.order_independent self threshold texts texts'.
Proof.
  intros Hs P st out st1 out' st1' H H'.
  rewrite dissonance_scan_eq in H, H'. inv H. inv H'.
  rewrite !all_pairs_index. intros a b.
  rewrite !(reports_paired _ _ _ _ _ Hs).
  split; intros [Hp Hm]; (split; [| exact Hm]).
  - eapply paired_perm; eassumption.
  - eapply paired_perm; [apply Permutation_sym |]; eassumption.
Qed.

Lemma scan_order_independent_witness :
  Spec.order_independent Scenario.scenario_a (1 # 2)
    ["A is true."; "B holds."; "A is false."] ["A is false."; "A is true."; "B holds."].
Proof.
  apply (scan_order_independent Scenario.scenario_a (1 # 2)
           ["A is true."; "B holds."; "A is false."]
           ["A is false."; "A is true."; "B holds."]).
  - intros a b. reflexivity.
  - apply Permutation_sym. apply (Permutation_cons_app ["A is true."; "B holds."] []).
    apply Permutation_refl.
Defined.

(** * Further properties of the code *)

(** ** Stripping *)

Lemma lstrip_list s :
  list_ascii_of_string (PyStr.lstrip s) = drop_spaces (list_ascii_of_string s).
Proof.
  induction s as [| c s IH]; [reflexivity |].
  cbn. destruct (PyStr.isspace c); [exact IH | reflexivity].
Qed.

Lemma strip_list s :
  list_ascii_of_string (PyStr.strip s)
  = List.rev (drop_spaces (List.rev (drop_spaces (list_ascii_of_string s)))).
Proof.
  unfold PyStr.strip, PyStr.rstrip, PyStr.rev.
  rewrite !list_ascii_of_string_of_list_ascii, lstrip_list,
    list_ascii_of_string_of_list_ascii, lstrip_list. reflexivity.
Qed.

Lemma drop_spaces_idem l : drop_spaces (drop_spaces l) = drop_spaces l.
Proof.
  induction l as [| c l IH]; [reflexivity |].
  cbn. destruct (PyStr.isspace c) eqn:E; [exact IH |]. cbn. rewrite E. reflexivity.
Qed.

Lemma drop_spaces_app a c b :
  PyStr.isspace c = false ->
  drop_spaces (a ++ c :: b) = (drop_spaces a ++ c :: b)%list.
Proof.
  intros Hc. induction a as [| x a IH]; cbn.
  - rewrite Hc. reflexivity.
  - destruct (PyStr.isspace x); [exact IH | reflexivity].
Qed.

Lemma drop_spaces_head l :
  match drop_spaces l with
  | [] => True
  | c :: _ => PyStr.isspace c = false
  end.
Proof.
  induction l as [| c l IH]; cbn; [exact I |].
  destruct (PyStr.isspace c) eqn:E; [exact IH | exact E].
Qed.

(** The shape of a stripped text: empty, or from a character that is not a
    space to a character that is not a space. *)
Lemma strip_shape l :
  let t := List.rev (drop_spaces (List.rev (drop_spaces l))) in
  drop_spaces t = t /\ drop_spaces (List.rev t) = List.rev t.
Proof.
  cbn zeta. rewrite rev_involutive, drop_spaces_idem. split; [| reflexivity].
  pose proof (drop_spaces_head l) as H.
  destruct (drop_spaces l) as [| c m]; [reflexivity |].
  cbn [List.rev]. rewrite (drop_spaces_app _ _ _ H), rev_app_distr. cbn.
  rewrite H. reflexivity.
Qed.

Lemma strip_idempotent s : PyStr.strip (PyStr.strip s) = PyStr.strip s.
Proof.
  rewrite <- (string_of_list_ascii_of_string (PyStr.strip (PyStr.strip s))).
  rewrite <- (string_of_list_ascii_of_string (PyStr.strip s)) at 2.
  f_equal. rewrite strip_list, strip_list.
  destruct (strip_shape (list_ascii_of_string s)) as [H1 H2].
  rewrite H1, H2. apply rev_involutive.
Qed.

(** ** Candidates are well formed *)

Lemma strip_numbering_stripped c0 rest line' :
  PyStr.strip (String c0 rest) = String c0 rest ->
  strip_numbering c0 (String c0 rest) = Ok line' ->
  PyStr.strip line' = line'.
Proof.
  intros Hs H. apply strip_numbering_spec in H. subst line'.
  destruct (Spec.enumerated (String c0 rest)); [| exact Hs].
  unfold Spec.remainder.
  destruct (PyStr.partition _ (String c0 rest)) as [[before after] |];
    [apply strip_idempotent | exact Hs].
Qed.

Lemma parse_lines_well_formed exp self lines : forall acc parsed,
  Forall (well_formed exp self) acc ->
  parse_lines exp self lines acc = Ok parsed ->
  Forall (well_formed exp self) parsed.
Proof.
  induction lines as [| line lines IH]; intros acc parsed Hacc H.
  - cbn in H. inv H. exact Hacc.
  - cbn [parse_lines] in H.
    destruct (PyStr.strip line) as [| c0 rest] eqn:S; [eapply IH; eassumption |].
    destruct (strip_numbering c0 (String c0 rest)) as [line' | e] eqn:N; [| discriminate].
    destruct (String.length line' <? 6)%nat eqn:L; [eapply IH; eassumption |].
    eapply IH; [| exact H]. apply Forall_app. split; [exact Hacc |].
    constructor; [| constructor]. unfold well_formed. cbn [q novelty].
    apply Nat.ltb_ge in L. split; [exact L |]. split; [| reflexivity].
    eapply strip_numbering_stripped; [| exact N].
    rewrite <- S. apply strip_idempotent.
Qed.

(** X1.  Every candidate of a batch has a text of at least six characters
    that has no white space at either end, and carries the novelty score of
    that text, which lies in [[0,1]]. *)
Theorem batch_candidates_well_formed (exp : Q -> Q) (self : CuriosityEngine)
    (w : World) (topic : string) (n : Z) (st st' : State) (batch : list question) :
  generate_questions exp self w topic n st = (Ok batch, st') ->
  Forall (fun c => (6 <= String.length (q c))%nat /\
                   PyStr.strip (q c) = q c /\
                   novelty c = _novelty exp self (q c) /\
                   (0 <= novelty c <= 1)%Q) batch.
Proof.
  intros H. apply generate_ok in H. destruct H as [raw [parsed [_ [P ->]]]].
  apply (parse_lines_well_formed exp self _ [] parsed (Forall_nil _)) in P.
  eapply Permutation_Forall; [apply sort_desc_perm |].
  eapply Forall_impl; [| exact P]. intros c [H6 [Hs Hn]].
  repeat split; try assumption; rewrite Hn.
  - unfold _novelty. destruct (Retrieval.search _ _ _); [discriminate |].
    rewrite clamp_eq. apply clamp01_range.
  - unfold _novelty. destruct (Retrieval.search _ _ _); [discriminate |].
    rewrite clamp_eq. apply clamp01_range.
Qed.

Lemma batch_candidates_well_formed_witness :
  Forall (fun c => (6 <= String.length (q c))%nat /\
                   PyStr.strip (q c) = q c /\
                   novelty c = _novelty Scenario.approx_exp Scenario.varied_engine (q c) /\
                   (0 <= novelty c <= 1)%Q)
         [mkQuestion "Why does time dilate near mass?" (31 # 41);
          mkQuestion "Is light a wave?" (16 # 26);
          mkQuestion "Is sound a wave?" (16 # 26)].
Proof.
  apply (batch_candidates_well_formed Scenario.approx_exp Scenario.varied_engine
           (Scenario.answering Scenario.three_lines) "gravity" 1 init_state
           (snd (generate_questions Scenario.approx_exp Scenario.varied_engine
                   (Scenario.answering Scenario.three_lines) "gravity" 1 init_state))).
  reflexivity.
Defined.

(** ** The cost of a session *)

Lemma client_post_posts w url prompt st r st' :
  client_post w url prompt st = (r, st') -> http_posts st' = S (http_posts st).
Proof. unfold client_post. intros H; inv H. reflexivity. Qed.

Lemma post_then_posts {A} w url prompt (k : response -> M A) st r st' :
  (forall resp s0 x s1, k resp s0 = (x, s1) -> s1 = s0) ->
  bind (client_post w url prompt) k st = (r, st') -> http_posts st' = S (http_posts st).
Proof.
  intros Hk H. apply bind_cases in H.
  destruct H as [[resp [st1 [P K]]] | [e [P _]]].
  - apply Hk in K. subst. eapply client_post_posts; eassumption.
  - eapply client_post_posts; eassumption.
Qed.

(** A call of the router makes one POST, or none. *)
Lemma dispatch_posts self w prompt mt st r st' :
  Router.dispatch self w prompt mt st = (r, st') ->
  http_posts st' = http_posts st \/
  (calls_http self = true /\ http_posts st' = S (http_posts st)).
Proof.
  unfold Router.dispatch, calls_http.
  destruct (String.eqb (provider self) "openai").
  { unfold Router._call_openai.
    destruct (Router.has_value (getenv w "OPENAI_API_KEY")).
    - intros H. right. split; [reflexivity |]. revert H.
      apply post_then_posts. intros resp s0 x s1.
      destruct (negb (status_code resp =? 200)); unfold ret, lift; congruence.
    - unfold ret. intros H; inv H. left. reflexivity. }
  destruct (String.eqb (provider self) "anthropic").
  { unfold Router._call_anthropic.
    destruct (Router.has_value (getenv w "ANTHROPIC_API_KEY")).
    - intros H. right. split; [reflexivity |]. revert H.
      apply post_then_posts. intros resp s0 x s1.
      destruct (status_fault resp); unfold raise, lift; congruence.
    - unfold ret. intros H; inv H. left. reflexivity. }
  destruct (String.eqb (provider self) "ollama").
  { unfold Router._call_ollama.
    destruct (bind (client_post w "http://localhost:11434/api/generate" prompt)
                   (fun r0 => lift (content r0)) st) as [x s1] eqn:B.
    assert (F : http_posts s1 = S (http_posts st)).
    { eapply post_then_posts; [| exact B]. unfold lift. congruence. }
    destruct x; intros H; inv H; right; split; auto. }
  unfold ret. intros H; inv H. left. reflexivity.
Qed.

Lemma generate_effect exp self w topic n st r st' :
  generate_questions exp self w topic n st = (r, st') ->
  clock_reads st' = clock_reads st /\ nli_log st' = nli_log st /\
  (http_posts st <= http_posts st' <= S (http_posts st))%nat.
Proof.
  unfold generate_questions. intros H.
  assert (C : exists rc s1,
             Router.completions (router self) w (build_prompt self topic n) None st = (rc, s1)
             /\ st' = s1).
  { apply bind_cases in H. destruct H as [[raw [s1 [C K]]] | [e [C _]]].
    - exists (Ok raw), s1. split; [exact C |].
      unfold bind, lift, ret in K.
      destruct (parse_lines exp self (PyStr.splitlines raw) []); inv K; reflexivity.
    - exists (Raise e), st'. split; [exact C | reflexivity]. }
  destruct C as [rc [s1 [C ->]]]. unfold Router.completions in C.
  destruct (Router.dispatch (router self) w (build_prompt self topic n) None st)
    as [x s2] eqn:D.
  pose proof (dispatch_frame _ _ _ _ _ _ _ D) as [Hc [_ Hn]].
  pose proof (dispatch_posts _ _ _ _ _ _ _ D) as Hp.
  inv C. cbn. repeat split; try assumption; destruct Hp as [-> | [_ ->]]; lia.
Qed.

(** The loop: at most one completion call and one POST a round, one reading
    of the clock for each round started. *)
Lemma explore_loop_cost exp self w per_round start : forall k trail seed st r st',
  explore_loop exp self w k start per_round trail seed st = (r, st') ->
  exists calls,
    llm_log st' = (llm_log st ++ calls)%list /\
    (List.length calls <= k)%nat /\
    (http_posts st <= http_posts st' <= http_posts st + List.length calls)%nat /\
    (clock_reads st + List.length calls <= clock_reads st'
     <= clock_reads st + List.length calls + 1)%nat /\
    (clock_reads st' <= clock_reads st + k)%nat /\
    nli_log st' = nli_log st.
Proof.
  induction k as [| k IH]; intros trail seed st r st' H.
  - cbn in H. inv H. exists []. rewrite app_nil_r. cbn. repeat split; lia.
  - rewrite explore_loop_S in H.
    destruct (negb (Qle_bool (clock w (clock_reads st) - start) (max_s self))).
    { inv H. exists []. rewrite app_nil_r. cbn. repeat split; lia. }
    destruct (generate_questions exp self w seed per_round (tick st))
      as [rg st1] eqn:G.
    pose proof (generate_effect _ _ _ _ _ _ _ _ G) as [Hc [Hn Hp]].
    apply generate_cases in G. destruct G as [rc [L R]].
    cbn [tick llm_log clock_reads http_posts nli_log] in *.
    assert (Stop : st' = st1 ->
                   exists calls,
                     llm_log st' = (llm_log st ++ calls)%list /\
                     (List.length calls <= S k)%nat /\
                     (http_posts st <= http_posts st' <= http_posts st + List.length calls)%nat /\
                     (clock_reads st + List.length calls <= clock_reads st'
                      <= clock_reads st + List.length calls + 1)%nat /\
                     (clock_reads st' <= clock_reads st + S k)%nat /\
                     nli_log st' = nli_log st).
    { intros E. subst st'. eexists. split; [exact L |]. cbn. repeat split; try lia; congruence. }
    destruct rg as [batch | e]; [| apply Stop; congruence].
    destruct (fresh_of self batch) as [| top rest].
    { apply Stop. congruence. }
    apply IH in H. destruct H as [calls [L' [Hk [Hp' [Hc' [Hck Hn']]]]]].
    exists ((build_prompt self seed per_round, rc) :: calls).
    split; [rewrite L', L, <- app_assoc; reflexivity |].
    cbn [List.length]. repeat split; try lia. congruence.
Qed.

(** X2.  A session makes at most [max_rounds] completion calls, each with at
    most one POST, reads the clock at most [max_rounds + 2] times, and never
    calls the contradiction model, whether it returns or ends by a fault. *)
Theorem session_cost (exp : Q -> Q) (self : CuriosityEngine) (w : World)
    (seed : string) (per_round : Z) (st : State) :
  let st' := snd (bounded_explore exp self w seed per_round st) in
  exists calls,
    llm_log st' = (llm_log st ++ calls)%list /\
    Z.of_nat (List.length calls) <= Z.max 0 (max_r self) /\
    (http_posts st <= http_posts st' <= http_posts st + List.length calls)%nat /\
    Z.of_nat (clock_reads st') <= Z.of_nat (clock_reads st) + Z.max 0 (max_r self) + 2 /\
    nli_log st' = nli_log st.
Proof.
  cbn zeta.
  destruct (bounded_explore exp self w seed per_round st) as [r st'] eqn:H.
  apply bounded_explore_cases in H. destruct H as [rl [st1 [E R]]].
  apply explore_loop_cost in E. destruct E as [calls [L [Hk [Hp [_ [Hc Hn]]]]]].
  cbn [tick llm_log clock_reads http_posts nli_log snd] in *.
  assert (Hst : llm_log st' = llm_log st1 /\ http_posts st' = http_posts st1 /\
                nli_log st' = nli_log st1 /\
                (clock_reads st' <= S (clock_reads st1))%nat).
  { destruct rl; destruct R as [_ ->]; cbn; repeat split; lia. }
  destruct Hst as [-> [-> [-> Hc']]].
  exists calls. repeat split; try assumption; lia.
Qed.

(** ** Sessions without a round *)

(** X3.  When [max_rounds] is not positive, or the time already spent exceeds
    the budget at the first check, the session returns an empty trail and has
    called neither the completion router nor an endpoint. *)
Theorem no_round_no_call (exp : Q -> Q) (self : CuriosityEngine) (w : World)
    (seed : string) (per_round : Z) (st : State) :
  max_r self <= 0 \/
  (max_s self < clock w (S (clock_reads st)) - clock w (clock_reads st))%Q ->
  exists elapsed st',
    bounded_explore exp self w seed per_round st
    = (Ok [("trail", VTrail []); ("elapsed_s", VFloat elapsed)], st') /\
    llm_log st' = llm_log st /\ http_posts st' = http_posts st.
Proof.
  intros H. unfold bounded_explore.
  unfold bind at 1, time_time at 1. fold (tick st).
  assert (L : explore_loop exp self w (Z.to_nat (max_r self))
                (clock w (clock_reads st)) per_round [] seed (tick st)
              = (Ok [], tick st) \/
              explore_loop exp self w (Z.to_nat (max_r self))
                (clock w (clock_reads st)) per_round [] seed (tick st)
              = (Ok [], tick (tick st))).
  { destruct (Z.to_nat (max_r self)) as [| k] eqn:K; [left; reflexivity |].
    right. rewrite explore_loop_S. cbn [tick clock_reads].
    destruct H as [H | H]; [lia |].
    destruct (Qle_bool _ (max_s self)) eqn:E; [| reflexivity].
    apply Qle_bool_iff in E. exfalso. exact (Qlt_not_le _ _ H E). }
  destruct L as [L | L]; rewrite (bind_step _ _ _ _ _ L);
    unfold bind, time_time, ret; eexists; eexists; (split; [reflexivity |]);
    split; reflexivity.
Qed.

Lemma no_round_no_call_witness :
  exists elapsed st',
    bounded_explore Scenario.no_exp Scenario.scenario_d
      (Scenario.answering Scenario.gravity_text) "gravity" 2 init_state
    = (Ok [("trail", VTrail []); ("elapsed_s", VFloat elapsed)], st') /\
    llm_log st' = llm_log init_state /\ http_posts st' = http_posts init_state.
Proof.
  apply (no_round_no_call Scenario.no_exp Scenario.scenario_d
           (Scenario.answering Scenario.gravity_text) "gravity" 2 init_state).
  right. reflexivity.
Defined.

(** ** The search *)

Lemma collect_eq texts found : forall results,
  Retrieval.collect texts found results
  = (results ++ map (hit_of texts) (filter (in_range texts) found))%list.
Proof.
  induction found as [| [dist idx] found IH]; intros results.
  - cbn. rewrite app_nil_r. reflexivity.
  - cbn [Retrieval.collect filter]. unfold in_range at 1. cbn [snd].
    destruct ((idx <? 0) || (Z.of_nat (List.length texts) <=? idx)); cbn [negb].
    + apply IH.
    + rewrite IH, <- app_assoc. reflexivity.
Qed.

(** X4.  The hits of a search are the entries the index found whose index is
    one of a stored text, in the order of the index, each with the text
    stored there and the distance found; entries with an index that is
    negative or beyond the store are skipped.  Without an index the search
    returns nothing. *)
Theorem search_hits (self : Retriever) (query : string) (k : Z) :
  Forall (fun hit => In (fst hit) (texts self)) (Retrieval.search self query k) /\
  match index self with
  | None => Retrieval.search self query k = []
  | Some idx =>
      Retrieval.search self query k
      = map (hit_of (texts self)) (filter (in_range (texts self)) (idx query k))
  end.
Proof.
  assert (E : match index self with
              | None => Retrieval.search self query k = []
              | Some idx =>
                  Retrieval.search self query k
                  = map (hit_of (texts self)) (filter (in_range (texts self)) (idx query k))
              end).
  { unfold Retrieval.search. destruct (index self) as [idx |]; [| reflexivity].
    destruct (texts self) as [| t ts] eqn:T.
    - assert (F : forall l, filter (in_range []) l = []).
      { induction l as [| [d i] l IHl]; [reflexivity |].
        cbn [filter]. unfold in_range at 1. cbn [snd List.length].
        destruct (i <? 0) eqn:A; [exact IHl |].
        destruct (Z.of_nat 0 <=? i) eqn:B; [exact IHl |].
        apply Z.ltb_ge in A. apply Z.leb_gt in B. cbn in B. lia. }
      rewrite F. reflexivity.
    - rewrite collect_eq. reflexivity. }
  split; [| exact E].
  destruct (index self) as [idx |]; rewrite E; [| constructor].
  apply Forall_forall. intros hit Hin. apply in_map_iff in Hin.
  destruct Hin as [[d i] [<- Hf]]. apply filter_In in Hf. destruct Hf as [_ Hr].
  unfold in_range in Hr. cbn [snd] in Hr. apply negb_true_iff, orb_false_iff in Hr.
  destruct Hr as [A B]. apply Z.ltb_ge in A. apply Z.leb_gt in B.
  unfold hit_of. cbn [fst snd]. apply nth_In. lia.
Qed.

(** ** The shape of the trail *)

Lemma sorted_filter {A} (R : A -> A -> Prop) (p : A -> bool) (l : list A) :
  StronglySorted R l -> StronglySorted R (filter p l).
Proof.
  induction 1 as [| a l HS IH Ha]; cbn; [constructor |].
  destruct (p a); [| exact IH]. constructor; [exact IH |].
  apply Forall_forall. intros x Hx. apply filter_In in Hx.
  rewrite Forall_forall in Ha. apply Ha. tauto.
Qed.

Lemma generate_round exp self w topic n st batch st' :
  generate_questions exp self w topic n st = (Ok batch, st') ->
  fresh_of self batch <> [] -> round_ok exp self (fresh_of self batch).
Proof.
  intros H NE. apply generate_ok in H. destruct H as [raw [parsed [_ [P ->]]]].
  apply (parse_lines_well_formed exp self _ [] parsed (Forall_nil _)) in P.
  split; [exact NE |]. split.
  - apply sorted_filter, sort_desc_sorted.
  - apply Forall_forall. intros c Hc. split.
    + unfold fresh_of in Hc. apply filter_In in Hc. destruct Hc as [Hc _].
      rewrite Forall_forall in P. apply P.
      eapply Permutation_in; [apply Permutation_sym, sort_desc_perm | exact Hc].
    + pose proof (fresh_of_Forall self (sort_desc parsed)) as F.
      rewrite Forall_forall in F. apply F. exact Hc.
Qed.

(** The loop appends round after round; the prompt of each call is built
    from the seed, then from the first candidate of the round before. *)
Lemma explore_loop_rounds exp self w per_round start : forall k trail seed st r st',
  explore_loop exp self w k start per_round trail seed st = (r, st') ->
  exists rounds calls,
    llm_log st' = (llm_log st ++ calls)%list /\
    map fst calls
    = map (fun s => build_prompt self s per_round)
          (firstn (List.length calls) (seed :: map top_text rounds)) /\
    Forall (round_ok exp self) rounds /\
    (List.length rounds <= List.length calls <= S (List.length rounds))%nat /\
    (List.length rounds <= k)%nat /\
    (forall t, r = Ok t -> t = (trail ++ List.concat rounds)%list).
Proof.
  induction k as [| k IH]; intros trail seed st r st' H.
  - cbn in H. inv H. exists [], []. rewrite !app_nil_r. cbn.
    repeat split; try lia; try constructor. intros t E. inv E. cbn; rewrite ?app_nil_r; reflexivity.
  - rewrite explore_loop_S in H.
    destruct (negb (Qle_bool (clock w (clock_reads st) - start) (max_s self))).
    { inv H. exists [], []. rewrite !app_nil_r. cbn.
      repeat split; try lia; try constructor. intros t E. inv E. cbn; rewrite ?app_nil_r; reflexivity. }
    destruct (generate_questions exp self w seed per_round (tick st))
      as [rg st1] eqn:G.
    pose proof (generate_cases _ _ _ _ _ _ _ _ G) as [rc [L _]].
    cbn [tick llm_log] in L.
    destruct rg as [batch | e].
    + destruct (fresh_of self batch) as [| top rest] eqn:F.
      * inv H. exists [], [(build_prompt self seed per_round, rc)].
        split; [exact L |]. cbn. repeat split; try lia; try constructor.
        intros t E. inv E. cbn; rewrite ?app_nil_r; reflexivity.
      * pose proof (generate_round _ _ _ _ _ _ _ _ G) as Hr. rewrite F in Hr.
        specialize (Hr ltac:(discriminate)).
        apply IH in H. destruct H as [rounds [calls [L' [Hp [Hf [Hl [Hk Ht]]]]]]].
        exists ((top :: rest) :: rounds), ((build_prompt self seed per_round, rc) :: calls).
        split; [rewrite L', L, <- app_assoc; reflexivity |].
        split; [cbn; f_equal; exact Hp |].
        split; [constructor; assumption |].
        split; [cbn; lia |]. split; [cbn; lia |].
        intros t E. rewrite (Ht t E). cbn [List.concat]. rewrite app_assoc. reflexivity.
    + inv H. exists [], [(build_prompt self seed per_round, rc)].
      split; [exact L |]. cbn. repeat split; try lia; try constructor.
      intros t E. discriminate.
Qed.

(** X5.  The trail of a session is the concatenation of its rounds, at most
    [max_rounds] of them; each round is a non-empty list, in descending order
    of novelty, of well-formed candidates at or above the threshold.  The
    first completion prompt is built from the seed and each later one from
    the first, most novel, candidate of the round before. *)
Theorem trail_is_rounds (exp : Q -> Q) (self : CuriosityEngine) (w : World)
    (seed : string) (per_round : Z) (st st' : State) (res : dict) :
  bounded_explore exp self w seed per_round st = (Ok res, st') ->
  exists rounds calls,
    dict_get res "trail" = Some (VTrail (List.concat rounds)) /\
    Forall (round_ok exp self) rounds /\
    Z.of_nat (List.length rounds) <= Z.max 0 (max_r self) /\
    llm_log st' = (llm_log st ++ calls)%list /\
    (List.length rounds <= List.length calls <= S (List.length rounds))%nat /\
    map fst calls
    = map (fun s => build_prompt self s per_round)
          (firstn (List.length calls) (seed :: map top_text rounds)).
Proof.
  intros H. apply bounded_explore_cases in H.
  destruct H as [[t | e] [st1 [E [R ->]]]]; [| discriminate].
  apply explore_loop_rounds in E.
  destruct E as [rounds [calls [L [Hp [Hf [Hl [Hk Ht]]]]]]].
  exists rounds, calls. inv R. rewrite (Ht t eq_refl). cbn [tick llm_log] in *.
  repeat split; try assumption; try lia. 
Qed.

Lemma trail_is_rounds_witness :
  exists rounds calls,
    dict_get [("trail", VTrail [mkQuestion "Why does time dilate near mass?" (31 # 41);
                                mkQuestion "Is light a wave?" (16 # 26);
                                mkQuestion "Is sound a wave?" (16 # 26)]);
              ("elapsed_s", VFloat (200 # 100))] "trail"
    = Some (VTrail (List.concat rounds)) /\
    Forall (round_ok Scenario.approx_exp Scenario.varied_engine) rounds /\
    Z.of_nat (List.length rounds) <= Z.max 0 (max_r Scenario.varied_engine) /\
    llm_log (snd (bounded_explore Scenario.approx_exp Scenario.varied_engine
                    (Scenario.answering Scenario.three_lines) "gravity" 1 init_state))
    = (llm_log init_state ++ calls)%list /\
    (List.length rounds <= List.length calls <= S (List.length rounds))%nat /\
    map fst calls
    = map (fun s => build_prompt Scenario.varied_engine s 1)
          (firstn (List.length calls) ("gravity" :: map top_text rounds)).
Proof.
  apply (trail_is_rounds Scenario.approx_exp Scenario.varied_engine
           (Scenario.answering Scenario.three_lines) "gravity" 1 init_state).
  reflexivity.
Defined.

(** ** Without a knowledge store *)

Lemma search_unavailable r query k :
  unavailable r -> Retrieval.search r query k = [].
Proof.
  unfold unavailable, Retrieval.search. intros [-> | ->]; [reflexivity |].
  destruct (index r); reflexivity.
Qed.

Lemma novelty_unavailable exp self text :
  unavailable (retriever self) -> _novelty exp self text = 1 # 2.
Proof. intros U. unfold _novelty. rewrite (search_unavailable _ _ _ U). reflexivity. Qed.

Lemma build_prompt_unavailable self topic n :
  unavailable (retriever self) ->
  build_prompt self topic n = format_prompt rubric "" n.
Proof. intros U. unfold build_prompt. rewrite (search_unavailable _ _ _ U). reflexivity. Qed.

(** X6.  With a retriever that has no index or no texts, every entry of the
    trail has novelty exactly 0.5, so a threshold above 0.5 leaves the trail
    empty; and every completion prompt of the session is the same text,
    whatever the seed: the topic reaches the prompt through the retrieved
    context only. *)
Theorem session_without_store (exp : Q -> Q) (self : CuriosityEngine) (w : World)
    (seed : string) (per_round : Z) (st st' : State) (res : dict) :
  unavailable (retriever self) ->
  bounded_explore exp self w seed per_round st = (Ok res, st') ->
  exists trail calls,
    dict_get res "trail" = Some (VTrail trail) /\
    Forall (fun c => novelty c = 1 # 2) trail /\
    ((1 # 2 < nov_thr self)%Q -> trail = []) /\
    llm_log st' = (llm_log st ++ calls)%list /\
    Forall (fun call => fst call = format_prompt rubric "" per_round) calls.
Proof.
  intros U H. apply bounded_explore_cases in H.
  destruct H as [[t | e] [st1 [E [R ->]]]]; [| discriminate].
  apply explore_loop_rounds in E.
  destruct E as [rounds [calls [L [Hp [Hf [_ [_ Ht]]]]]]].
  inv R. rewrite (Ht t eq_refl). cbn [app tick llm_log] in *.
  exists (List.concat rounds), calls.
  assert (Hn : Forall (fun c => novelty c = 1 # 2) (List.concat rounds)).
  { apply Forall_concat. eapply Forall_impl; [| exact Hf].
    intros b [_ [_ Hb]]. eapply Forall_impl; [| exact Hb].
    intros c [[_ [_ Hc]] _]. rewrite Hc. apply novelty_unavailable. exact U. }
  split; [reflexivity |]. split; [exact Hn |]. split; [| split; [exact L |]].
  - intros Hthr. destruct rounds as [| b rounds]; [reflexivity |]. exfalso.
    inversion Hf as [| ? ? [NE [_ Hb]] _]; subst.
    destruct b as [| c b]; [congruence |].
    inversion Hb as [| ? ? [[_ [_ Hc]] Hge] _]; subst.
    rewrite Hc, (novelty_unavailable _ _ _ U) in Hge.
    exact (Qlt_not_le _ _ Hthr Hge).
  - apply Forall_forall. intros call Hin.
    apply (in_map fst) in Hin. rewrite Hp in Hin. apply in_map_iff in Hin.
    destruct Hin as [s [<- _]]. apply build_prompt_unavailable. exact U.
Qed.

Lemma session_without_store_witness :
  exists trail calls,
    dict_get [("trail", VTrail []); ("elapsed_s", VFloat (200 # 100))] "trail"
    = Some (VTrail trail) /\
    Forall (fun c => novelty c = 1 # 2) trail /\
    ((1 # 2 < nov_thr Scenario.scenario_b)%Q -> trail = []) /\
    llm_log (snd (bounded_explore Scenario.no_exp Scenario.scenario_b
                    (Scenario.answering Scenario.gravity_text) "gravity" 2 init_state))
    = (llm_log init_state ++ calls)%list /\
    Forall (fun call => fst call = format_prompt rubric "" 2) calls.
Proof.
  apply (session_without_store Scenario.no_exp Scenario.scenario_b
           (Scenario.answering Scenario.gravity_text) "gravity" 2 init_state).
  - left. reflexivity.
  - reflexivity.
Defined.

(** ** How a session can fail *)







(** ** Which numberings are removed *)

Lemma digit_not_delimiter c :
  PyStr.isdigit c = true ->
  Ascii.eqb "." c = false /\ Ascii.eqb c "." = false /\ Ascii.eqb c ")" = false.
Proof.
  destruct c as [[] [] [] [] [] [] [] []]; vm_compute; intros H;
    solve [discriminate H | repeat split].
Qed.

Example decimal_loses_its_integer_part :
  strip_numbering "3" "3.14 is close to pi" = Ok "14 is close to pi".
Proof. reflexivity. Qed.

(** X9.  A numbering of one or two digits followed by a period is removed
    with the period, and so is one digit followed by a closing parenthesis;
    two digits followed by a parenthesis, and every run of three digits,
    stay in the text of the question. *)
Theorem numbering_removed_or_kept (d1 d2 d3 c : ascii) (t : string) :
  PyStr.isdigit d1 = true -> PyStr.isdigit d2 = true -> PyStr.isdigit d3 = true ->
  c <> "."%char ->
  strip_numbering d1 (String d1 (String "." t)) = Ok (PyStr.strip t) /\
  strip_numbering d1 (String d1 (String d2 (String "." t))) = Ok (PyStr.strip t) /\
  strip_numbering d1 (String d1 (String ")" (String c t))) = Ok (PyStr.strip (String c t)) /\
  strip_numbering d1 (String d1 (String d2 (String ")" t)))
  = Ok (String d1 (String d2 (String ")" t))) /\
  strip_numbering d1 (String d1 (String d2 (String d3 t)))
  = Ok (String d1 (String d2 (String d3 t))).
Proof.
  intros D1 D2 D3 Hc.
  destruct (digit_not_delimiter _ D1) as [A1 [B1 C1]].
  destruct (digit_not_delimiter _ D2) as [A2 [B2 C2]].
  destruct (digit_not_delimiter _ D3) as [A3 [B3 C3]].
  assert (Ac : Ascii.eqb "." c = false).
  { apply Ascii.eqb_neq. congruence. }
  unfold strip_numbering, PyStr.split1.
  cbn [PyStr.take PyStr.contains PyStr.partition String.get Nat.eqb].
  rewrite D1, ?A1, ?A2, ?A3, ?Ac, ?B2, ?C2.
  change (Ascii.eqb "." ".") with true. change (Ascii.eqb "." ")") with false.
  change (Ascii.eqb ")" ")") with true. change (Ascii.eqb ")" ".") with false.
  cbn [andb orb negb].
  assert (P1 : Ascii.eqb ")" d1 = false)
    by (rewrite Ascii.eqb_sym; exact C1).
  rewrite ?P1. cbn [andb orb].
  repeat split.
Qed.

Lemma numbering_removed_or_kept_witness :
  strip_numbering "1" "1. Why?" = Ok "Why?" /\
  strip_numbering "1" "12. Why?" = Ok "Why?" /\
  strip_numbering "1" "1)  Why?" = Ok "Why?" /\
  strip_numbering "1" "12) Why?" = Ok "12) Why?" /\
  strip_numbering "1" "123 Why?" = Ok "123 Why?".
Proof.
  apply (numbering_removed_or_kept "1" "2" "3" " " " Why?" eq_refl eq_refl eq_refl).
  discriminate.
Defined.

(** ** Rounding and the reported contradiction *)

Lemma round_error (x : Q) (n : nat) :
  let eps := (1 / (2 * inject_Z (10 ^ Z.of_nat n)))%Q in
  (x - eps <= PyNum.round x n <= x + eps)%Q.
Proof.
  cbn zeta. unfold PyNum.round.
  assert (Hpos : 0 < 10 ^ Z.of_nat n) by (apply Z.pow_pos_nonneg; lia).
  set (scale := Z.to_pos (10 ^ Z.of_nat n)).
  assert (Hscale : Zpos scale = 10 ^ Z.of_nat n) by (apply Z2Pos.id; exact Hpos).
  rewrite <- Hscale.
  set (S := inject_Z (Zpos scale)).
  assert (HS : (0 < S)%Q) by (unfold S, Qlt; cbn; lia).
  set (s := (x * S)%Q). set (f := Qfloor s).
  pose proof (Qfloor_le s) as F1. pose proof (Qlt_floor s) as F2.
  fold f in F1, F2. rewrite inject_Z_plus in F2. change (inject_Z 1) with 1%Q in F2.
  set (m := match Qcompare (s - inject_Z f) (1 # 2) with
            | Lt => f
            | Gt => f + 1
            | Eq => if Z.even f then f else f + 1
            end).
  assert (Hm : (inject_Z m - (1 # 2) <= s <= inject_Z m + (1 # 2))%Q).
  { subst m. destruct (Qcompare_spec (s - inject_Z f) (1 # 2)) as [E | E | E].
    - destruct (Z.even f); [| rewrite inject_Z_plus; change (inject_Z 1) with 1%Q]; lra.
    - lra.
    - rewrite inject_Z_plus. change (inject_Z 1) with 1%Q. lra. }
  rewrite (Qmake_Qdiv m scale). fold S.
  assert (Hx : (x == s / S)%Q) by (unfold s; field; lra).
  set (y := (/ S)%Q).
  assert (Hy : (0 < y)%Q) by (apply Qinv_lt_0_compat; exact HS).
  assert (E1 : (inject_Z m / S == inject_Z m * y)%Q) by reflexivity.
  assert (E2 : (1 / (2 * S) == (1 # 2) * y)%Q) by (unfold y; field; lra).
  assert (E3 : (x == s * y)%Q) by (rewrite Hx; reflexivity).
  rewrite E1, E2, E3.
  destruct Hm as [Hm1 Hm2].
  split.
  - assert (H : ((s - inject_Z m - (1 # 2)) * y <= 0)%Q).
    { rewrite <- (Qmult_0_l y). apply Qmult_le_compat_r; lra. }
    lra.
  - assert (H : (0 <= (s - inject_Z m + (1 # 2)) * y)%Q).
    { apply Qmult_le_0_compat; lra. }
    lra.
Qed.

Example reported_below_threshold :
  fst (dissonance_scan
         (Scenario.engine "ollama" (mkNLI (fun _ _ => 6504 # 10000)) (35 # 100) 25 1)
         ["A is true."; "A is false."] (6503 # 10000) init_state)
  = Ok [mkDissonance "A is true." "A is false." (650 # 1000)].
Proof. reflexivity. Qed.

(** X10.  Each pair a scan reports consists of a text of the input and a
    later one, whose probability of contradiction is at least the threshold;
    the value reported is that probability rounded to three decimals, hence
    within 0.0005 of it, and may be below the threshold by that much.  No
    more than [n*(n-1)/2] pairs are reported. *)
Theorem reported_pairs (self : CuriosityEngine) (texts : list string)
    (threshold : Q) (st st' : State) (out : list dissonance) :
  dissonance_scan self texts threshold st = (Ok out, st') ->
  Forall (fun d =>
            let p := contradiction_prob (nli self) (da d) (db d) in
            In (da d, db d) (Spec.all_pairs texts) /\
            (threshold <= p)%Q /\
            dscore d = PyNum.round p 3 /\
            (p - (1 # 2000) <= dscore d <= p + (1 # 2000))%Q /\
            (threshold - (1 # 2000) <= dscore d)%Q) out /\
  (List.length out <= List.length texts * (List.length texts - 1) / 2)%nat.
Proof.
  intros H. rewrite dissonance_scan_eq in H. inv H. rewrite all_pairs_index. split.
  - apply Forall_forall. intros d Hd. apply in_map_iff in Hd.
    destruct Hd as [[a b] [<- Hp]]. apply filter_In in Hp. destruct Hp as [Hin Hm].
    unfold Spec.meets in Hm. cbn [fst snd] in Hm. apply Qle_bool_iff in Hm.
    cbn [Spec.record da db dscore fst snd]. cbv zeta.
    pose proof (round_error (contradiction_prob (nli self) a b) 3) as R.
    cbn zeta in R.
    assert (E : (1 / (2 * inject_Z (10 ^ Z.of_nat 3)) == 1 # 2000)%Q) by reflexivity.
    rewrite E in R.
    repeat split; try assumption; try reflexivity; try tauto. lra.
  - rewrite length_map. etransitivity; [apply filter_length_le |].
    rewrite <- all_pairs_index, length_map, index_pairs_length. apply Nat.le_refl.
Qed.

Lemma reported_pairs_witness :
  Forall (fun d =>
            let p := contradiction_prob (nli Scenario.scenario_a) (da d) (db d) in
            In (da d, db d) (Spec.all_pairs ["A is true."; "A is false."]) /\
            (1 # 2 <= p)%Q /\
            dscore d = PyNum.round p 3 /\
            (p - (1 # 2000) <= dscore d <= p + (1 # 2000))%Q /\
            ((1 # 2) - (1 # 2000) <= dscore d)%Q)
         [mkDissonance "A is true." "A is false." (900 # 1000)] /\
  (List.length [mkDissonance "A is true." "A is false." (900 # 1000)]
   <= List.length ["A is true."; "A is false."]
      * (List.length ["A is true."; "A is false."] - 1) / 2)%nat.
Proof.
  apply (reported_pairs Scenario.scenario_a ["A is true."; "A is false."] (1 # 2)
           init_state
           (snd (dissonance_scan Scenario.scenario_a ["A is true."; "A is false."]
                   (1 # 2) init_state))).
  reflexivity.
Defined.

(** ** Building the router from its specification *)

Lemma partition_some sep s a b :
  PyStr.partition sep s = Some (a, b) ->
  s = a ++ String sep b /\ PyStr.contains sep a = false.
Proof.
  revert a b. induction s as [| c s IH]; intros a b H; [discriminate |].
  cbn [PyStr.partition] in H. destruct (Ascii.eqb sep c) eqn:E.
  - inv H. apply Ascii.eqb_eq in E. subst. split; reflexivity.
  - destruct (PyStr.partition sep s) as [[a' b'] |]; [| discriminate].
    inv H. destruct (IH a' b eq_refl) as [-> Hc].
    split; [reflexivity |]. cbn. rewrite E. exact Hc.
Qed.

Lemma partition_none sep s :
  PyStr.contains sep s = false -> PyStr.partition sep s = None.
Proof.
  induction s as [| c s IH]; [reflexivity |].
  cbn. destruct (Ascii.eqb sep c); [discriminate |].
  cbn. intros H. rewrite (IH H). reflexivity.
Qed.

Lemma partition_found sep s :
  PyStr.contains sep s = true -> exists a b, PyStr.partition sep s = Some (a, b).
Proof.
  induction s as [| c s IH]; [discriminate |].
  cbn [PyStr.contains PyStr.partition]. destruct (Ascii.eqb sep c); [eauto |].
  cbn [orb]. intros H. destruct (IH H) as [a [b ->]]. eauto.
Qed.

Lemma partition_first sep p m :
  PyStr.contains sep p = false ->
  PyStr.partition sep (p ++ String sep m) = Some (p, m).
Proof.
  induction p as [| c p IH]; cbn.
  - rewrite Ascii.eqb_refl. reflexivity.
  - destruct (Ascii.eqb sep c); [discriminate |]. cbn.
    intros H. rewrite (IH H). reflexivity.
Qed.

Lemma contains_app sep p m :
  PyStr.contains sep (p ++ String sep m) = true.
Proof.
  induction p as [| c p IH]; cbn.
  - rewrite Ascii.eqb_refl. reflexivity.
  - rewrite IH. apply orb_true_r.
Qed.

Lemma lower_char_facts c :
  lower_char (lower_char c) = lower_char c /\
  Ascii.eqb ":" (lower_char c) = Ascii.eqb ":" c.
Proof.
  destruct c as [[] [] [] [] [] [] [] []]; split; vm_compute; reflexivity.
Qed.

Lemma lower_idempotent s : lower (lower s) = lower s.
Proof.
  induction s as [| c s IH]; [reflexivity |].
  cbn. rewrite IH. f_equal. apply lower_char_facts.
Qed.

Lemma lower_keeps_colons s : PyStr.contains ":" (lower s) = PyStr.contains ":" s.
Proof.
  induction s as [| c s IH]; [reflexivity |].
  cbn. rewrite IH. f_equal. apply lower_char_facts.
Qed.

Example capitals_in_the_provider :
  ModelRouter_init "OpenAI:gpt-3.5-turbo" = Ok (mkRouter "openai" "gpt-3.5-turbo") /\
  ModelRouter_init "ollama:llama3:8b" = Ok (mkRouter "ollama" "llama3:8b") /\
  ModelRouter_init "llama3" = Ok (mkRouter "echo" "llama3").
Proof. repeat split; reflexivity. Qed.

(** X11.  Building a router never raises.  A specification with a colon is
    split at its first colon: the provider is the text before it in lower
    case, the model the text after it, further colons included; one without
    a colon gives the provider "echo" and the whole text as model.  The
    provider is in lower case and has no colon. *)
Theorem model_spec_parsed (model_spec : string) :
  exists r,
    ModelRouter_init model_spec = Ok r /\
    lower (provider r) = provider r /\
    PyStr.contains ":" (provider r) = false /\
    (if PyStr.contains ":" model_spec
     then exists p, model_spec = p ++ ":" ++ model r /\
                    PyStr.contains ":" p = false /\ provider r = lower p
     else r = mkRouter "echo" model_spec) /\
    forall p m, PyStr.contains ":" p = false -> model_spec = p ++ ":" ++ m ->
                r = mkRouter (lower p) m.
Proof.
  unfold ModelRouter_init, PyStr.split1.
  destruct (PyStr.contains ":" model_spec) eqn:C.
  - destruct (PyStr.partition ":" model_spec) as [[p m] |] eqn:P.
    + destruct (partition_some _ _ _ _ P) as [E Hp].
      exists (mkRouter (lower p) m). cbn [provider model].
      split; [reflexivity |]. split; [apply lower_idempotent |].
      split; [rewrite lower_keeps_colons; exact Hp |].
      split; [exists p; auto |].
      intros p' m' Hp' E'. rewrite E' in P.
      change (p' ++ ":" ++ m') with (p' ++ String ":" m') in P.
      rewrite (partition_first _ _ _ Hp') in P. inv P. reflexivity.
    + destruct (partition_found _ _ C) as [a [b P']]. congruence.
  - exists (mkRouter "echo" model_spec). repeat split.
    intros p m _ E. subst model_spec.
    change (p ++ ":" ++ m) with (p ++ String ":" m) in C.
    rewrite contains_app in C. discriminate.
Qed.

(** ** The echo provider *)

Lemma echo_completion self w prompt mt st :
  calls_http self = false ->
  Router.completions self w prompt mt st = (Ok prompt, echo_state st prompt).
Proof.
  unfold calls_http, Router.completions, Router.dispatch. intros H.
  apply orb_false_iff in H. destruct H as [H ->].
  apply orb_false_iff in H. destruct H as [-> ->]. reflexivity.
Qed.

Lemma append_empty s : s ++ "" = s.
Proof. induction s as [| c s IH]; cbn; congruence. Qed.

Lemma append_snoc cur c s : (cur ++ String c "") ++ s = cur ++ String c s.
Proof. induction cur as [| d cur IH]; cbn; congruence. Qed.

Lemma splitlines_first_line s : forall cur rest,
  one_line s = true ->
  PyStr.splitlines_from cur (s ++ String "010" rest)
  = (cur ++ s) :: PyStr.splitlines_from "" rest.
Proof.
  induction s as [| c s IH]; intros cur rest H.
  - rewrite append_empty. cbn [append PyStr.splitlines_from].
    change (PyStr.is_linebreak "010") with true. cbv iota.
    change (PyStr.is_cr "010") with false. cbn [andb].
    destruct rest; reflexivity.
  - cbn [one_line] in H. apply andb_true_iff in H. destruct H as [Hc Hs].
    apply negb_true_iff in Hc.
    cbn [append PyStr.splitlines_from]. rewrite Hc.
    rewrite (IH _ _ Hs), append_snoc. reflexivity.
Qed.

Lemma prompt_first_line ctx n :
  PyStr.splitlines (format_prompt rubric ctx n)
  = rubric :: PyStr.splitlines
                ("Context:" ++ PyStr.nl ++ "- " ++ ctx ++ PyStr.nl ++ PyStr.nl
                 ++ "Produce up to " ++ PyStr.of_int n
                 ++ " distinct questions (<=25 words). Number them.").
Proof.
  unfold PyStr.splitlines, format_prompt.
  rewrite <- (splitlines_first_line rubric "" _ eq_refl). reflexivity.
Qed.

Lemma parse_rubric exp self lines :
  parse_lines exp self (rubric :: lines) []
  = parse_lines exp self lines [mkQuestion rubric (_novelty exp self rubric)].
Proof. reflexivity. Qed.

(** X12.  With a provider the router does not know, a round makes no POST and
    takes its own prompt for the completion: the batch it returns contains
    the rubric of the prompt as a candidate question. *)
Theorem echo_asks_its_rubric (exp : Q -> Q) (self : CuriosityEngine) (w : World)
    (topic : string) (n : Z) (st st' : State) (batch : list question) :
  calls_http (router self) = false ->
  generate_questions exp self w topic n st = (Ok batch, st') ->
  st' = echo_state st (build_prompt self topic n) /\
  In (mkQuestion rubric (_novelty exp self rubric)) batch.
Proof.
  intros E H. unfold generate_questions in H.
  rewrite (bind_step _ _ _ _ _ (echo_completion _ w _ None st E)) in H.
  unfold bind, lift, ret in H.
  destruct (parse_lines exp self (PyStr.splitlines (build_prompt self topic n)) [])
    as [parsed | e] eqn:P; [| discriminate].
  inv H. split; [reflexivity |].
  eapply Permutation_in; [apply sort_desc_perm |].
  unfold build_prompt in P. rewrite prompt_first_line, parse_rubric in P.
  apply parse_lines_spec in P. rewrite P.
  apply in_or_app. left. left. reflexivity.
Qed.

Lemma echo_asks_its_rubric_witness :
  snd (generate_questions Scenario.no_exp
         (Scenario.engine "echo" Scenario.steady_nli (35 # 100) 25 1)
         (Scenario.answering "") "gravity" 2 init_state)
  = echo_state init_state
      (build_prompt (Scenario.engine "echo" Scenario.steady_nli (35 # 100) 25 1) "gravity" 2) /\
  In (mkQuestion rubric (1 # 2))
     [mkQuestion rubric (1 # 2); mkQuestion "Context:" (1 # 2);
      mkQuestion "Produce up to 2 distinct questions (<=25 words). Number them." (1 # 2)].
Proof.
  apply (echo_asks_its_rubric Scenario.no_exp
           (Scenario.engine "echo" Scenario.steady_nli (35 # 100) 25 1)
           (Scenario.answering "") "gravity" 2 init_state).
  - reflexivity.
  - reflexivity.
Defined.

(** ** The orchestrator *)

Lemma all_pairs_length (l : list string) :
  (2 * List.length (Spec.all_pairs l) = List.length l * (List.length l - 1))%nat.
Proof.
  induction l as [| x l IH]; [reflexivity |].
  cbn [Spec.all_pairs List.length]. rewrite length_app, length_map.
  replace (S (List.length l) - 1)%nat with (List.length l) by lia.
  destruct (List.length l) as [| k]; [cbn in *; lia |].
  replace (S k - 1)%nat with k in IH by lia. nia.
Qed.

Lemma bounded_explore_nli exp self w seed per_round st r st' :
  bounded_explore exp self w seed per_round st = (r, st') ->
  nli_log st' = nli_log st.
Proof.
  intros H. apply bounded_explore_cases in H. destruct H as [rl [st1 [E R]]].
  apply explore_loop_cost in E. destruct E as [calls [_ [_ [_ [_ [_ Hn]]]]]].
  cbn [tick nli_log] in Hn.
  destruct rl; destruct R as [_ ->]; cbn; exact Hn.
Qed.

(** A cycle is an exploration followed by a scan of the first eight
    questions of its trail. *)
Lemma run_cycle_cases exp engine w topic st :
  run_cycle exp engine w topic st
  = match bounded_explore exp engine w topic 6 st with
    | (Raise e, s1) => (Raise e, s1)
    | (Ok session, s1) =>
        match dict_get session "trail" with
        | Some (VTrail trail) =>
            let pairs := Spec.all_pairs (firstn 8 (map q trail)) in
            (Ok (mkCycle topic session
                   (map (Spec.record (nli engine))
                        (filter (Spec.meets (nli engine) (65 # 100)) pairs))),
             log_nli s1 pairs)
        | Some (VFloat _) => (Raise (Fault "TypeError"), s1)
        | None => (Raise (Fault "KeyError"), s1)
        end
    end.
Proof.
  unfold run_cycle. unfold bind at 1.
  destruct (bounded_explore exp engine w topic 6 st) as [[session | e] s1];
    [| reflexivity].
  unfold session_trail.
  destruct (dict_get session "trail") as [[trail | x] |]; try reflexivity.
  unfold bind at 1, ret at 1. unfold bind.
  rewrite dissonance_scan_eq, all_pairs_index. reflexivity.
Qed.

(** X13.  A cycle that returns gives back the topic and the session of the
    exploration, scans the first eight questions of the trail in trail order
    with the threshold 0.65, and so calls the contradiction model at most 28
    times, and not at all when the trail has fewer than two entries. *)
Theorem cycle_scans_first_eight (exp : Q -> Q) (engine : CuriosityEngine) (w : World)
    (topic : string) (st st' : State) (c : cycle) :
  run_cycle exp engine w topic st = (Ok c, st') ->
  exists s1 trail,
    bounded_explore exp engine w topic 6 st = (Ok (c_session c), s1) /\
    c_topic c = topic /\
    dict_get (c_session c) "trail" = Some (VTrail trail) /\
    let pairs := Spec.all_pairs (firstn 8 (map q trail)) in
    c_dissonance c
    = map (Spec.record (nli engine)) (filter (Spec.meets (nli engine) (65 # 100)) pairs) /\
    nli_log st' = (nli_log st ++ pairs)%list /\
    llm_log st' = llm_log s1 /\
    (List.length pairs <= 28)%nat /\
    ((List.length trail <= 1)%nat -> pairs = []).
Proof.
  rewrite run_cycle_cases.
  destruct (bounded_explore exp engine w topic 6 st) as [[session | e] s1] eqn:B;
    [| discriminate].
  pose proof (bounded_explore_nli _ _ _ _ _ _ _ _ B) as Hn.
  destruct (dict_get session "trail") as [[trail | x] |] eqn:G; try discriminate.
  cbv zeta. intros H. inv H. cbn [c_session c_topic c_dissonance].
  exists s1, trail. repeat split; try assumption.
  - cbn. rewrite Hn. reflexivity.
  - pose proof (all_pairs_length (firstn 8 (map q trail))) as L.
    pose proof (firstn_le_length 8 (map q trail)) as L8. nia.
  - intros Ht. destruct trail as [| a [| b t]]; [reflexivity | reflexivity |].
    cbn in Ht. lia.
Qed.

Lemma cycle_scans_first_eight_witness :
  let c := mkCycle "gravity"
             [("trail", VTrail [mkQuestion "Why does mass bend spacetime?" (1 # 2);
                                mkQuestion "What if gravity were repulsive at small scales?" (1 # 2)]);
              ("elapsed_s", VFloat (200 # 100))]
             [mkDissonance "Why does mass bend spacetime?"
                           "What if gravity were repulsive at small scales?" (900 # 1000)] in
  let st' := snd (run_cycle Scenario.no_exp Scenario.scenario_a
                    (Scenario.answering Scenario.gravity_text) "gravity" init_state) in
  exists s1 trail,
    bounded_explore Scenario.no_exp Scenario.scenario_a
      (Scenario.answering Scenario.gravity_text) "gravity" 6 init_state
    = (Ok (c_session c), s1) /\
    c_topic c = "gravity" /\
    dict_get (c_session c) "trail" = Some (VTrail trail) /\
    let pairs := Spec.all_pairs (firstn 8 (map q trail)) in
    c_dissonance c
    = map (Spec.record (nli Scenario.scenario_a))
          (filter (Spec.meets (nli Scenario.scenario_a) (65 # 100)) pairs) /\
    nli_log st' = (nli_log init_state ++ pairs)%list /\
    llm_log st' = llm_log s1 /\
    (List.length pairs <= 28)%nat /\
    ((List.length trail <= 1)%nat -> pairs = []).
Proof.
  intros c st'.
  apply (cycle_scans_first_eight Scenario.no_exp Scenario.scenario_a
           (Scenario.answering Scenario.gravity_text) "gravity" init_state).
  reflexivity.
Defined.

(** X14.  A cycle fails exactly when its exploration fails, with the same
    fault and in the same state: the contradiction model is not called, and
    the trail gathered before the fault is not returned. *)
Theorem cycle_fails_with_exploration (exp : Q -> Q) (engine : CuriosityEngine)
    (w : World) (topic : string) (st st' : State) (e : exn) :
  run_cycle exp engine w topic st = (Raise e, st') <->
  bounded_explore exp engine w topic 6 st = (Raise e, st').
Proof.
  rewrite run_cycle_cases.
  destruct (bounded_explore exp engine w topic 6 st) as [[session | x] s1] eqn:B.
  - apply bounded_explore_cases in B.
    destruct B as [[t | y] [s2 [_ [R _]]]]; [| discriminate].
    inv R. cbn. split; discriminate.
  - split; intros H; inv H; reflexivity.
Qed.

(** ** The endpoint *)

Example ask_blank_topic :
  fst (ask Scenario.no_exp Scenario.scenario_a (Scenario.answering Scenario.gravity_text)
         "   " init_state)
  = HTTPException 400 "Topic must be a non-empty string.".
Proof. reflexivity. Qed.

Example ask_lone_digit_completion :
  fst (ask Scenario.no_exp Scenario.scenario_a (Scenario.answering "7")
         "gravity" init_state)
  = HTTPException 500 "Failed to generate questions: string index out of range".
Proof. reflexivity. Qed.

(** X15.  The endpoint answers 400 exactly for a topic that is empty once
    stripped, and then nothing has been called; it answers 500 exactly when
    the exploration ended by a fault, with the message of that fault after a
    fixed prefix and without a call of the contradiction model; otherwise it
    answers with the result of the cycle. *)
Theorem ask_outcomes (exp : Q -> Q) (engine : CuriosityEngine) (w : World)
    (topic : string) (st : State) :
  let '(answer, st') := ask exp engine w topic st in
  match answer with
  | HTTPException status detail =>
      (status = 400 /\ PyStr.strip topic = "" /\ st' = st) \/
      (status = 500 /\ PyStr.strip topic <> "" /\ nli_log st' = nli_log st /\
       exists e, bounded_explore exp engine w topic 6 st = (Raise e, st') /\
                 detail = "Failed to generate questions: " ++ exn_message e)
  | AskResponse body =>
      PyStr.strip topic <> "" /\ run_cycle exp engine w topic st = (Ok body, st')
  end.
Proof.
  unfold ask.
  destruct (String.eqb topic "") eqn:T.
  { apply String.eqb_eq in T. subst topic. cbn. left. repeat split. }
  destruct (String.eqb (PyStr.strip topic) "") eqn:S; cbn [orb].
  { apply String.eqb_eq in S. left. repeat split. exact S. }
  apply String.eqb_neq in S.
  destruct (run_cycle exp engine w topic st) as [[body | e] st'] eqn:R.
  - split; [exact S | reflexivity].
  - right. rewrite run_cycle_cases in R.
    destruct (bounded_explore exp engine w topic 6 st) as [[session | x] s1] eqn:B.
    + exfalso. apply bounded_explore_cases in B.
      destruct B as [[t | y] [s2 [_ [E _]]]]; [| discriminate].
      inv E. cbn in R. discriminate.
    + inv R. pose proof (bounded_explore_nli _ _ _ _ _ _ _ _ B) as Hn.
      repeat split; try assumption. exists e. split; reflexivity.
Qed.

(** ** Questions are single lines *)

Lemma one_line_iff s :
  one_line s = true <->
  forall c, In c (list_ascii_of_string s) -> PyStr.is_linebreak c = false.
Proof.
  induction s as [| d s IH]; cbn.
  - split; [intros _ c [] | reflexivity].
  - rewrite andb_true_iff, negb_true_iff, IH. split.
    + intros [Hd Hs] c [<- | Hc]; auto.
    + intros H. split; [apply H; left; reflexivity | intros c Hc; apply H; right; exact Hc].
Qed.

Lemma one_line_snoc cur c :
  one_line cur = true -> PyStr.is_linebreak c = false ->
  one_line (cur ++ String c "") = true.
Proof.
  intros Hcur Hc. induction cur as [| d cur IH]; cbn in *.
  - rewrite Hc. reflexivity.
  - apply andb_true_iff in Hcur. destruct Hcur as [-> Hcur]. cbn. apply IH. exact Hcur.
Qed.

Lemma splitlines_one_line : forall n s cur,
  (String.length s <= n)%nat -> one_line cur = true ->
  Forall (fun l => one_line l = true) (PyStr.splitlines_from cur s).
Proof.
  induction n as [| n IH]; intros s cur Hn Hcur.
  - destruct s; [| cbn in Hn; lia]. cbn. destruct cur; repeat constructor. exact Hcur.
  - destruct s as [| c rest]; [cbn; destruct cur; repeat constructor; exact Hcur |].
    cbn [String.length] in Hn. cbn [PyStr.splitlines_from].
    destruct (PyStr.is_linebreak c) eqn:B.
    + constructor; [exact Hcur |].
      destruct rest as [| c2 rest']; [apply IH; [cbn; lia | reflexivity] |].
      cbn [String.length] in Hn.
      destruct (PyStr.is_cr c && PyStr.is_lf c2); apply IH;
        solve [cbn; lia | reflexivity].
    + apply IH; [lia |]. apply one_line_snoc; assumption.
Qed.

Lemma drop_spaces_incl l c : In c (drop_spaces l) -> In c l.
Proof.
  induction l as [| d l IH]; cbn; [tauto |].
  destruct (PyStr.isspace d); [intros H; right; apply IH; exact H | cbn; tauto].
Qed.

Lemma strip_one_line s : one_line s = true -> one_line (PyStr.strip s) = true.
Proof.
  rewrite !one_line_iff. intros H c Hc. rewrite strip_list in Hc.
  apply in_rev, drop_spaces_incl, in_rev, drop_spaces_incl in Hc. auto.
Qed.

Lemma after_one_line sep s a b :
  PyStr.partition sep s = Some (a, b) -> one_line s = true -> one_line b = true.
Proof.
  revert a b. induction s as [| c s IH]; intros a b H Hs; [discriminate |].
  cbn [PyStr.partition] in H. cbn [one_line] in Hs.
  apply andb_true_iff in Hs. destruct Hs as [_ Hs].
  destruct (Ascii.eqb sep c).
  - inv H. exact Hs.
  - destruct (PyStr.partition sep s) as [[a' b'] |]; [| discriminate].
    inv H. eapply IH; [reflexivity | exact Hs].
Qed.

Lemma parse_lines_one_line exp self lines : forall acc parsed,
  Forall (fun l => one_line l = true) lines ->
  Forall (fun c => one_line (q c) = true) acc ->
  parse_lines exp self lines acc = Ok parsed ->
  Forall (fun c => one_line (q c) = true) parsed.
Proof.
  induction lines as [| line lines IH]; intros acc parsed Hl Hacc H.
  - cbn in H. inv H. exact Hacc.
  - inversion Hl as [| ? ? Hline Hrest]; subst. cbn [parse_lines] in H.
    pose proof (strip_one_line _ Hline) as Hs.
    destruct (PyStr.strip line) as [| c0 rest] eqn:S; [eapply IH; eassumption |].
    destruct (strip_numbering c0 (String c0 rest)) as [line' | e] eqn:N; [| discriminate].
    destruct (String.length line' <? 6)%nat; [eapply IH; eassumption |].
    eapply IH; [exact Hrest | | exact H].
    apply Forall_app. split; [exact Hacc |]. constructor; [| constructor]. cbn [q].
    apply strip_numbering_spec in N. subst line'.
    destruct (Spec.enumerated (String c0 rest)); [| exact Hs].
    unfold Spec.remainder.
    destruct (PyStr.partition _ (String c0 rest)) as [[before after] |] eqn:P;
      [| exact Hs].
    apply strip_one_line. eapply after_one_line; eassumption.
Qed.

(** X16.  No question of a batch contains a line boundary: a completion
    gives at most one candidate a line, and each candidate is part of one
    line. *)
Theorem questions_are_single_lines (exp : Q -> Q) (self : CuriosityEngine)
    (w : World) (topic : string) (n : Z) (st st' : State) (batch : list question) :
  generate_questions exp self w topic n st = (Ok batch, st') ->
  Forall (fun c => forall x, In x (list_ascii_of_string (q c)) ->
                             PyStr.is_linebreak x = false) batch /\
  exists raw,
    In (build_prompt self topic n, Ok raw) (llm_log st') /\
    (List.length batch <= List.length (PyStr.splitlines raw))%nat.
Proof.
  intros H. apply generate_ok in H. destruct H as [raw [parsed [L [P ->]]]].
  split.
  - eapply Permutation_Forall; [apply sort_desc_perm |].
    assert (F : Forall (fun c => one_line (q c) = true) parsed).
    { eapply parse_lines_one_line; [| constructor | exact P].
      apply (splitlines_one_line (String.length raw)); [lia | reflexivity]. }
    eapply Forall_impl; [| exact F]. intros c Hc. apply one_line_iff. exact Hc.
  - exists raw. split; [rewrite L; apply in_or_app; right; left; reflexivity |].
    rewrite <- (Permutation_length (sort_desc_perm parsed)).
    apply parse_lines_spec in P. subst parsed. cbn [app]. rewrite length_map.
    unfold Spec.surviving_of. clear.
    induction (PyStr.splitlines raw) as [| l ls IH]; cbn [flat_map List.length]; [lia |].
    rewrite length_app. destruct (Spec.candidate l); cbn; lia.
Qed.

Lemma questions_are_single_lines_witness :
  Forall (fun c => forall x, In x (list_ascii_of_string (q c)) ->
                             PyStr.is_linebreak x = false)
         [mkQuestion "Why does time dilate near mass?" (31 # 41);
          mkQuestion "Is light a wave?" (16 # 26);
          mkQuestion "Is sound a wave?" (16 # 26)] /\
  exists raw,
    In (build_prompt Scenario.varied_engine "gravity" 1, Ok raw)
       (llm_log (snd (generate_questions Scenario.approx_exp Scenario.varied_engine
                        (Scenario.answering Scenario.three_lines) "gravity" 1 init_state))) /\
    (List.length [mkQuestion "Why does time dilate near mass?" (31 # 41);
                  mkQuestion "Is light a wave?" (16 # 26);
                  mkQuestion "Is sound a wave?" (16 # 26)]
     <= List.length (PyStr.splitlines raw))%nat.
Proof.
  apply (questions_are_single_lines Scenario.approx_exp Scenario.varied_engine
           (Scenario.answering Scenario.three_lines) "gravity" 1 init_state).
  reflexivity.
Defined.
